(** * The MPI manager of cuda_lib: a shallow embedding and its properties

    Source: [catboost/cuda/cuda_lib/mpi/mpi_manager.h] (class [TMpiManager]
    and its nested class [TMpiRequest]).

    The file has three layers.
    - [MachineInt]: the fixed-width integer conversions the header relies on.
    - a sequentialised model of the MPI primitives the header calls (the
      transport is an external library; the model fixes the behaviour the
      header depends on: tag-addressed FIFO matching, buffered sends).
    - the embedding of [TMpiRequest] and [TMpiManager], method by method,
      followed by the theorems. *)

From Stdlib Require Import ZArith List Lia Bool.
From stdpp Require Import base numbers list gmap.

Local Open Scope Z_scope.

(** ** Fixed-width integers *)

Module MachineInt.

(** Two's complement reading of the low [bits] bits of [z]. *)
Definition wrap_signed (bits z : Z) : Z :=
  (z + 2 ^ (bits - 1)) mod 2 ^ bits - 2 ^ (bits - 1).

(** [static_cast<int>(z)] and every implicit conversion to [int]. *)
Definition to_int (z : Z) : Z := wrap_signed 32 z.

(** Conversion to [ui64] and [ui64] arithmetic. *)
Definition to_ui64 (z : Z) : Z := z mod 2 ^ 64.

(** [TAtomic] is [intptr_t]: 64 bits, signed. *)
Definition to_intptr (z : Z) : Z := wrap_signed 64 z.

Definition INT_MAX : Z := 2147483647.
Definition INT_MIN : Z := -2147483648.
Definition UI64_MAX : Z := 18446744073709551615.

End MachineInt.

Import MachineInt.

(** ** Outcomes of a call

    Nothing in the header returns an error code: a call either returns or
    the process stops.  The ways of stopping are kept apart. *)

Inductive Failure : Type :=
| AssertFailed            (* Y_ASSERT(cond) with cond false *)
| VerifyFailed            (* Y_VERIFY(cond, ...) with cond false *)
| EnsureFailed            (* CB_ENSURE(cond) with cond false: an exception *)
| MpiAbort (errno : Z)    (* MPI_SAFE_CALL on a call that did not succeed *)
| Blocked                 (* a blocking call that cannot return in this schedule *)
| Undefined               (* a read of a field or object that was never written *)
| OutOfFuel.              (* a loop that did not finish within the given fuel *)

Inductive Outcome (A : Type) : Type :=
| Returns (a : A)
| Stops (f : Failure).

Arguments Returns {A} a.
Arguments Stops {A} f.

(** A usage error: one of the three checks of the header fired. *)
Definition usage_error (f : Failure) : bool :=
  match f with
  | AssertFailed | VerifyFailed | EnsureFailed => true
  | _ => false
  end.

Definition fails_fatally {A} (o : Outcome A) : bool :=
  match o with
  | Returns _ => false
  | Stops f => usage_error f
  end.

Definition returns {A} (o : Outcome A) : bool :=
  match o with
  | Returns _ => true
  | Stops _ => false
  end.

(** Checks that read no state. *)
Definition check (f : Failure) (cond : bool) : Outcome unit :=
  if cond then Returns tt else Stops f.

Definition obind {A B} (o : Outcome A) (k : A -> Outcome B) : Outcome B :=
  match o with
  | Returns a => k a
  | Stops f => Stops f
  end.

(** Modelled from the spec: [Y_ASSERT], [Y_VERIFY] and [CB_ENSURE] are macros
    of util and of catboost/libs that are not part of the header.  The spec
    describes all three as immediate fatal checks ("assertion-style fatal
    error"), and that is how they are taken here; the constructor of
    [Failure] records which macro fired. *)
Definition Y_ASSERT (cond : bool) : Outcome unit := check AssertFailed cond.
Definition Y_VERIFY (cond : bool) : Outcome unit := check VerifyFailed cond.
Definition CB_ENSURE (cond : bool) : Outcome unit := check EnsureFailed cond.

(** ** Identities and the manager's own state *)

(** Modelled from the spec: [TDeviceId] is declared in device_id.h; the spec
    gives it as the pair (host id, local id), both [int]. *)
Record TDeviceId : Type := mkDeviceId {
  HostIdOf : Z;
  DeviceId : Z
}.

(** The private fields of [TMpiManager] that the methods below read or write.
    [Communicator] is the one communicator of the process group and is left
    implicit; the device tables and the codec are not touched by any method
    modelled here. *)
Record TMpiManager : Type := mkManager {
  HostCount : Z;
  HostId : Z;
  Counter : Z;                 (* TAtomic Counter = 0 *)
  UseBSendForTasks : bool      (* = false *)
}.

Definition BufferSize : Z := 32 * 1024 * 1024.

Definition IsMaster (m : TMpiManager) : bool := HostId m =? 0.

Definition GetMasterId : Z := 0.

Definition with_Counter (m : TMpiManager) (c : Z) : TMpiManager :=
  {| HostCount := HostCount m; HostId := HostId m; Counter := c;
     UseBSendForTasks := UseBSendForTasks m |}.

(** [AtomicIncrement(Counter)]: adds one to the 64-bit counter and yields the
    new value. *)
Definition AtomicIncrement (c : Z) : Z := to_intptr (c + 1).

(** [int GetTaskTag(const TDeviceId&)]. *)
Definition GetTaskTag (deviceId : TDeviceId) : Outcome Z :=
  obind (Y_ASSERT (0 <=? DeviceId deviceId)) (fun _ =>
  Returns (to_int (DeviceId deviceId + 1))).

(** The arithmetic of [NextCommunicationTag] on the value the counter has
    after the increment.  Negation and the shift are computed on 32 bits
    (on [INT_MIN] the negation yields [INT_MIN] again); [%] is the
    truncating remainder of C++. *)
Definition tag_of_counter (counter : Z) : Z :=
  let cycleLen := Z.shiftl 1 16 - 1 in
  let tag := to_int counter in
  let tag := if tag <? 0 then to_int (- tag) else tag in
  let tag := Z.rem tag cycleLen in
  let tag := to_int (Z.lor (Z.shiftl tag 10) 1023) in
  tag.

(** [int NextCommunicationTag()]: the tag and the manager with its counter
    advanced. *)
Definition NextCommunicationTag (m : TMpiManager) : Outcome (Z * TMpiManager) :=
  obind (Y_ASSERT (IsMaster m)) (fun _ =>
  let c := AtomicIncrement (Counter m) in
  Returns (tag_of_counter c, with_Counter m c)).


(** ** The transport

    MPI is an external library.  The model below is sequential: the calls of
    all processes are interleaved in one order and act on one [World].  It
    fixes what the header relies on and no more:
    - a message is addressed by (source rank, destination rank, tag);
    - a send copies its payload out at the call (buffered, "eager" mode), so
      a send request is complete as soon as it exists;
    - a receive is posted and matched later, when the library makes
      progress; posted receives are served oldest first, each taking the
      oldest queued message with its envelope (the non-overtaking rule);
    - a negative count and a message longer than the posted buffer are
      errors. *)

Abbreviation byte := Byte.byte.

Definition MPI_Request : Type := Z.

Record MPI_Status : Type := mkStatus { st_count : Z }.

(** Return codes.  Only the difference from [MPI_SUCCESS] is used. *)
Definition MPI_SUCCESS : Z := 0.
Definition MPI_ERR_COUNT : Z := 2.
Definition MPI_ERR_TRUNCATE : Z := 15.

Record Message : Type := mkMessage {
  msg_src : Z;
  msg_dst : Z;
  msg_tag : Z;
  msg_bytes : list byte
}.

(** A receive that was posted and has not been matched yet. *)
Record Posted : Type := mkPosted {
  rcv_req : MPI_Request;
  rcv_rank : Z;          (* the rank that posted it *)
  rcv_src : Z;
  rcv_tag : Z;
  rcv_buf : Z;           (* address of the buffer in the memory of [rcv_rank] *)
  rcv_count : Z
}.

Inductive MpiCall : Type :=
| Call_Isend (rank dest tag count : Z)
| Call_Irecv (rank source tag buf count : Z)
| Call_Send (rank dest tag count : Z)
| Call_Bsend (rank dest tag count : Z)
| Call_Recv (rank source tag buf count : Z)
| Call_Probe (rank source tag : Z)
| Call_Iprobe (rank source tag : Z)
| Call_Test (req : MPI_Request)
| Call_Wait (req : MPI_Request)
| Call_Cancel (req : MPI_Request)
| Call_Get_count.

Record World : Type := mkWorld {
  w_queue : list Message;      (* sent and not yet received, oldest first *)
  w_posted : list Posted;      (* posted and not yet matched, oldest first *)
  w_done : gmap Z Z;           (* completed requests and their byte counts *)
  w_mem : Z -> Z -> byte;      (* rank, address: the byte stored there *)
  w_next : MPI_Request;        (* the next request handle *)
  w_log : list MpiCall         (* the calls made so far, oldest first *)
}.

Definition set_queue (q : list Message) (w : World) : World :=
  mkWorld q (w_posted w) (w_done w) (w_mem w) (w_next w) (w_log w).
Definition set_posted (ps : list Posted) (w : World) : World :=
  mkWorld (w_queue w) ps (w_done w) (w_mem w) (w_next w) (w_log w).
Definition set_done (d : gmap Z Z) (w : World) : World :=
  mkWorld (w_queue w) (w_posted w) d (w_mem w) (w_next w) (w_log w).
Definition set_mem (m : Z -> Z -> byte) (w : World) : World :=
  mkWorld (w_queue w) (w_posted w) (w_done w) m (w_next w) (w_log w).
Definition set_next (n : MPI_Request) (w : World) : World :=
  mkWorld (w_queue w) (w_posted w) (w_done w) (w_mem w) n (w_log w).
Definition trace (c : MpiCall) (w : World) : World :=
  mkWorld (w_queue w) (w_posted w) (w_done w) (w_mem w) (w_next w) (w_log w ++ [c]).

(** *** Memory *)

Definition store_bytes (mem : Z -> byte) (addr : Z) (bs : list byte) : Z -> byte :=
  fun a =>
    if (addr <=? a) && (a <? addr + Z.of_nat (length bs))
    then nth (Z.to_nat (a - addr)) bs Byte.x00
    else mem a.

Definition load_bytes (mem : Z -> byte) (addr : Z) (n : nat) : list byte :=
  map (fun i => mem (addr + Z.of_nat i)) (seq 0 n).

Definition store_at (rank addr : Z) (bs : list byte) (mem : Z -> Z -> byte) : Z -> Z -> byte :=
  fun r => if r =? rank then store_bytes (mem r) addr bs else mem r.

(** *** Matching *)

Definition matches (p : Posted) (m : Message) : bool :=
  (msg_dst m =? rcv_rank p) && (msg_src m =? rcv_src p) && (msg_tag m =? rcv_tag p).

(** The first element that satisfies [f], and the list without it. *)
Fixpoint take_first {A : Type} (f : A -> bool) (l : list A) : option (A * list A) :=
  match l with
  | [] => None
  | x :: l' =>
      if f x then Some (x, l')
      else match take_first f l' with
           | Some (y, rest) => Some (y, x :: rest)
           | None => None
           end
  end.

(** Receiving message [m] for the posted receive [p]. *)
Definition deliver (p : Posted) (m : Message) (rest : list Message) (w : World) : World :=
  let n := Z.of_nat (length (msg_bytes m)) in
  set_mem (store_at (rcv_rank p) (rcv_buf p) (msg_bytes m) (w_mem w))
    (set_done (<[rcv_req p := n]> (w_done w))
      (set_queue rest w)).

(** One pass over the posted receives, oldest first.  The result is a return
    code, the receives still unmatched, and the world after the deliveries. *)
Fixpoint match_posted (ps : list Posted) (w : World) : Z * list Posted * World :=
  match ps with
  | [] => (MPI_SUCCESS, [], w)
  | p :: ps' =>
      match take_first (matches p) (w_queue w) with
      | Some (m, rest) =>
          if rcv_count p <? Z.of_nat (length (msg_bytes m))
          then (MPI_ERR_TRUNCATE, p :: ps', w)
          else match_posted ps' (deliver p m rest w)
      | None =>
          let '(e, unmatched, w') := match_posted ps' w in
          (e, p :: unmatched, w')
      end
  end.

Definition progress (w : World) : Z * World :=
  let '(e, unmatched, w') := match_posted (w_posted w) w in
  (e, set_posted unmatched w').

(** *** Calls *)

Definition M (A : Type) : Type := World -> Outcome (A * World).

Definition ret {A : Type} (a : A) : M A := fun w => Returns (a, w).

Definition bind {A B : Type} (m : M A) (k : A -> M B) : M B :=
  fun w =>
    match m w with
    | Returns (a, w') => k a w'
    | Stops f => Stops f
    end.

Definition lift {A : Type} (o : Outcome A) : M A :=
  fun w =>
    match o with
    | Returns a => Returns (a, w)
    | Stops f => Stops f
    end.

Notation "'let*' x ':=' m 'in' k" := (bind m (fun x => k))
  (at level 10, x binder, k at level 200).

Definition read_memory (rank addr : Z) (n : nat) : M (list byte) :=
  fun w => Returns (load_bytes (w_mem w rank) addr n, w).

(** Every primitive yields its return code and its out-parameters. *)

Definition enqueue (rank : Z) (buf : list byte) (count dest tag : Z) (w : World) : World :=
  set_queue (w_queue w ++ [mkMessage rank dest tag (take (Z.to_nat count) buf)]) w.

Definition MPI_Isend (rank : Z) (buf : list byte) (count dest tag : Z)
  : M (Z * MPI_Request) :=
  fun w =>
    let w := trace (Call_Isend rank dest tag count) w in
    if count <? 0 then Returns ((MPI_ERR_COUNT, w_next w), w)
    else
      let req := w_next w in
      Returns ((MPI_SUCCESS, req),
               set_next (req + 1)
                 (set_done (<[req := count]> (w_done w))
                   (enqueue rank buf count dest tag w))).

Definition MPI_Send (rank : Z) (buf : list byte) (count dest tag : Z) : M (Z * unit) :=
  fun w =>
    let w := trace (Call_Send rank dest tag count) w in
    if count <? 0 then Returns ((MPI_ERR_COUNT, tt), w)
    else Returns ((MPI_SUCCESS, tt), enqueue rank buf count dest tag w).

(** The buffer of the buffered mode is attached in [Start], which is not part
    of the header; it is taken to be large enough. *)
Definition MPI_Bsend (rank : Z) (buf : list byte) (count dest tag : Z) : M (Z * unit) :=
  fun w =>
    let w := trace (Call_Bsend rank dest tag count) w in
    if count <? 0 then Returns ((MPI_ERR_COUNT, tt), w)
    else Returns ((MPI_SUCCESS, tt), enqueue rank buf count dest tag w).

Definition MPI_Irecv (rank buf count source tag : Z) : M (Z * MPI_Request) :=
  fun w =>
    let w := trace (Call_Irecv rank source tag buf count) w in
    if count <? 0 then Returns ((MPI_ERR_COUNT, w_next w), w)
    else
      let req := w_next w in
      Returns ((MPI_SUCCESS, req),
               set_next (req + 1)
                 (set_done (delete req (w_done w))
                   (set_posted (w_posted w ++ [mkPosted req rank source tag buf count]) w))).

Definition MPI_Test (req : MPI_Request) : M (Z * (Z * option MPI_Status)) :=
  fun w =>
    let '(e, w) := progress (trace (Call_Test req) w) in
    if negb (e =? MPI_SUCCESS) then Returns ((e, (0, None)), w)
    else match w_done w !! req with
         | Some n => Returns ((MPI_SUCCESS, (1, Some (mkStatus n))), w)
         | None => Returns ((MPI_SUCCESS, (0, None)), w)
         end.

Definition MPI_Wait (req : MPI_Request) : M (Z * MPI_Status) :=
  fun w =>
    let '(e, w) := progress (trace (Call_Wait req) w) in
    if negb (e =? MPI_SUCCESS) then Returns ((e, mkStatus 0), w)
    else match w_done w !! req with
         | Some n => Returns ((MPI_SUCCESS, mkStatus n), w)
         | None => Stops Blocked
         end.

Definition MPI_Cancel (req : MPI_Request) : M (Z * unit) :=
  fun w =>
    let w := trace (Call_Cancel req) w in
    Returns ((MPI_SUCCESS, tt),
             set_posted (filter (fun p => rcv_req p ≠ req) (w_posted w)) w).

Definition MPI_Get_count (status : MPI_Status) : M (Z * Z) :=
  fun w => Returns ((MPI_SUCCESS, st_count status), trace Call_Get_count w).

Definition probe_queue (rank source tag : Z) (w : World) : option Message :=
  List.find (fun m => (msg_dst m =? rank) && (msg_src m =? source) && (msg_tag m =? tag))
            (w_queue w).

Definition MPI_Probe (rank source tag : Z) : M (Z * MPI_Status) :=
  fun w =>
    let '(e, w) := progress (trace (Call_Probe rank source tag) w) in
    if negb (e =? MPI_SUCCESS) then Returns ((e, mkStatus 0), w)
    else match probe_queue rank source tag w with
         | Some m => Returns ((MPI_SUCCESS, mkStatus (Z.of_nat (length (msg_bytes m)))), w)
         | None => Stops Blocked
         end.


(** A blocking receive is a receive posted and waited for at once. *)
Definition MPI_Recv (rank buf count source tag : Z) : M (Z * MPI_Status) :=
  fun w =>
    let w := trace (Call_Recv rank source tag buf count) w in
    if count <? 0 then Returns ((MPI_ERR_COUNT, mkStatus 0), w)
    else
      let req := w_next w in
      let w := set_next (req + 1)
                 (set_done (delete req (w_done w))
                   (set_posted (w_posted w ++ [mkPosted req rank source tag buf count]) w)) in
      let '(e, w) := progress w in
      if negb (e =? MPI_SUCCESS) then Returns ((e, mkStatus 0), w)
      else match w_done w !! req with
           | Some n => Returns ((MPI_SUCCESS, mkStatus n), w)
           | None => Stops Blocked
           end.

(** [MPI_SAFE_CALL(cmd)]: any code but [MPI_SUCCESS] ends in [MPI_Abort]. *)
Definition MPI_SAFE_CALL {A : Type} (cmd : M (Z * A)) : M A :=
  fun w =>
    match cmd w with
    | Returns ((mpiErrNo, a), w') =>
        if negb (MPI_SUCCESS =? mpiErrNo) then Stops (MpiAbort mpiErrNo)
        else Returns (a, w')
    | Stops f => Stops f
    end.

(** ** [TMpiRequest] *)

(** [Flag] is an [int] with three readings: -1 (no transfer bound: empty),
    0 (pending) and anything else (complete).  [Request] and [Status] have no
    initialiser; [None] stands for a field that was never written. *)
Record TMpiRequest : Type := mkRequest {
  Flag : Z;
  Request : option MPI_Request;
  Status : option MPI_Status
}.

Inductive RequestState : Type := Empty | Pending | Complete.

Definition state_of (r : TMpiRequest) : RequestState :=
  if Flag r =? -1 then Empty
  else if Flag r =? 0 then Pending
  else Complete.

(** [TMpiRequest()] with the default member initialiser [Flag = -1]. *)
Definition TMpiRequest_default : TMpiRequest := mkRequest (-1) None None.

(** The private [TMpiRequest(MPI_Request request)]. *)
Definition TMpiRequest_of (request : MPI_Request) : TMpiRequest :=
  mkRequest 0 (Some request) None.

Definition with_Flag (flag : Z) (r : TMpiRequest) : TMpiRequest :=
  mkRequest flag (Request r) (Status r).

(** Reading a field that was never written has no defined result. *)
Definition defined {A : Type} (o : option A) : M A :=
  fun w =>
    match o with
    | Some a => Returns (a, w)
    | None => Stops Undefined
    end.

(** [bool IsComplete() const].  The fields are [mutable]: the request after
    the call is part of the result. *)
Definition IsComplete (r : TMpiRequest) : M (bool * TMpiRequest) :=
  let* _ := lift (Y_ASSERT (negb (Flag r =? -1))) in
  let* _ := lift (CB_ENSURE (negb (Flag r =? -1))) in
  if Flag r =? 0 then
    let* request := defined (Request r) in
    let* '(flag, status) := MPI_SAFE_CALL (MPI_Test request) in
    let r' := mkRequest flag (Request r)
                (match status with Some s => Some s | None => Status r end) in
    ret (negb (Flag r' =? 0), r')
  else ret (negb (Flag r =? 0), r).

(** [void WaitComplete() const]. *)
Definition WaitComplete (r : TMpiRequest) : M TMpiRequest :=
  let* _ := lift (CB_ENSURE (negb (Flag r =? -1))) in
  if Flag r =? 0 then
    let* request := defined (Request r) in
    let* status := MPI_SAFE_CALL (MPI_Wait request) in
    ret (mkRequest 1 (Request r) (Some status))
  else ret r.

(** [ui64 ReceivedBytes() const]. *)
Definition ReceivedBytes (r : TMpiRequest) : M Z :=
  let* _ := lift (CB_ENSURE (negb (Flag r =? -1))) in
  let* status := defined (Status r) in
  let* result := MPI_SAFE_CALL (MPI_Get_count status) in
  ret (to_ui64 result).

(** [void Abort()]. *)
Definition Abort (r : TMpiRequest) : M TMpiRequest :=
  let* _ := lift (CB_ENSURE (negb (Flag r =? -1))) in
  if Flag r =? 0 then
    let* request := defined (Request r) in
    let* _ := MPI_SAFE_CALL (MPI_Cancel request) in
    ret (with_Flag (-1) r)
  else ret r.

(** [bool IsCreated()]. *)
Definition IsCreated (r : TMpiRequest) : bool := negb (Flag r =? -1).

(** [void Clear()]. *)
Definition Clear (r : TMpiRequest) : TMpiRequest := with_Flag (-1) r.

(** [~TMpiRequest()]. *)
Definition destroy (r : TMpiRequest) : Outcome unit :=
  if negb (Flag r =? -1) then Y_VERIFY (negb (Flag r =? 0))
  else Returns tt.

(** *** Request objects in memory

    Moves compare addresses ([this != &other]), so the objects live in a
    store indexed by address. *)

(** The body shared by the move constructor and the move assignment. *)
Definition move_body (this other : Z) (s : gmap Z TMpiRequest) : Outcome (gmap Z TMpiRequest) :=
  if negb (this =? other) then
    match s !! this, s !! other with
    | Some _, Some o =>
        Returns (<[other := Clear o]>
                   (<[this := mkRequest (Flag o) (Request o) (Status o)]> s))
    | _, _ => Stops Undefined
    end
  else Returns s.

(** [TMpiRequest(TMpiRequest&& other)]: the object at [this] first gets its
    default member initialisers, then the body runs. *)
Definition move_construct (this other : Z) (s : gmap Z TMpiRequest)
  : Outcome (gmap Z TMpiRequest) :=
  move_body this other (<[this := TMpiRequest_default]> s).

(** [TMpiRequest& operator=(TMpiRequest&& other)]. *)
Definition move_assign (this other : Z) (s : gmap Z TMpiRequest)
  : Outcome (gmap Z TMpiRequest) :=
  move_body this other s.

(** The destructor run on the object at address [a], which then is gone. *)
Definition destroy_at (a : Z) (s : gmap Z TMpiRequest) : Outcome (gmap Z TMpiRequest) :=
  match s !! a with
  | Some r => obind (destroy r) (fun _ => Returns (delete a s))
  | None => Stops Undefined
  end.

(** ** [TMpiManager]: transport *)

(** The overloads of [ReadAsync] and [WriteAsync] are told apart by their
    number of arguments in the header: 4 (one message), 5 (default block
    size) and 6 (explicit block size).

    A [const char*] argument is the list of the bytes it points to, and
    [data + offset] drops the first [offset] of them.  A [char*] argument is
    an address in the memory of the calling process. *)

(** [TMpiRequest ReadAsync(char* data, int dataSize, int sourceRank, int tag)]. *)
Definition ReadAsync4 (this : TMpiManager) (data dataSize sourceRank tag : Z)
  : M TMpiRequest :=
  let* request := MPI_SAFE_CALL (MPI_Irecv (HostId this) data dataSize sourceRank tag) in
  ret (TMpiRequest_of request).

(** [void Read(char* data, int dataSize, int sourceRank, int tag)]. *)
Definition Read (this : TMpiManager) (data dataSize sourceRank tag : Z) : M unit :=
  let* _ := MPI_SAFE_CALL (MPI_Recv (HostId this) data dataSize sourceRank tag) in
  ret tt.

(** [TMpiRequest WriteAsync(const char* data, int dataSize, int destRank, int tag)]. *)
Definition WriteAsync4 (this : TMpiManager) (data : list byte) (dataSize destRank tag : Z)
  : M TMpiRequest :=
  let* request := MPI_SAFE_CALL (MPI_Isend (HostId this) data dataSize destRank tag) in
  ret (TMpiRequest_of request).

(** [void Write(const char* data, int dataSize, int destRank, int tag)]. *)
Definition Write (this : TMpiManager) (data : list byte) (dataSize destRank tag : Z) : M unit :=
  MPI_SAFE_CALL (MPI_Send (HostId this) data dataSize destRank tag).

(** The loop of the six-argument [ReadAsync]:
    [for (ui64 offset = 0; offset < dataSize; offset += blockSize)].
    [fuel] bounds the number of iterations. *)
Fixpoint ReadAsync_loop (fuel : nat) (this : TMpiManager)
    (data dataSize blockSize sourceRank tag offset : Z)
    (requests : list TMpiRequest) : M (list TMpiRequest) :=
  if offset <? dataSize then
    match fuel with
    | O => fun _ => Stops OutOfFuel
    | S fuel' =>
        let size := to_int (Z.min blockSize (to_ui64 (dataSize - offset))) in
        let* r := ReadAsync4 this (data + offset) size sourceRank tag in
        ReadAsync_loop fuel' this data dataSize blockSize sourceRank tag
          (to_ui64 (offset + blockSize)) (requests ++ [r])
    end
  else ret requests.

(** [void ReadAsync(char* data, ui64 dataSize, ui64 blockSize, int sourceRank,
    int tag, TVector<TMpiRequest>* requests)]. *)
Definition ReadAsync6 (fuel : nat) (this : TMpiManager)
    (data dataSize blockSize sourceRank tag : Z)
    (requests : list TMpiRequest) : M (list TMpiRequest) :=
  ReadAsync_loop fuel this data dataSize blockSize sourceRank tag 0 requests.

(** [void ReadAsync(char* data, ui64 dataSize, int sourceRank, int tag,
    TVector<TMpiRequest>* requests)]. *)
Definition ReadAsync5 (fuel : nat) (this : TMpiManager)
    (data dataSize sourceRank tag : Z)
    (requests : list TMpiRequest) : M (list TMpiRequest) :=
  let blockSize := to_ui64 (to_int (Z.min dataSize (to_ui64 (Z.shiftl 1 30)))) in
  ReadAsync6 fuel this data dataSize blockSize sourceRank tag requests.

(** The loop of the six-argument [WriteAsync]. *)
Fixpoint WriteAsync_loop (fuel : nat) (this : TMpiManager)
    (data : list byte) (dataSize blockSize destRank tag offset : Z)
    (requests : list TMpiRequest) : M (list TMpiRequest) :=
  if offset <? dataSize then
    match fuel with
    | O => fun _ => Stops OutOfFuel
    | S fuel' =>
        let size := to_int (Z.min blockSize (to_ui64 (dataSize - offset))) in
        let* r := WriteAsync4 this (drop (Z.to_nat offset) data) size destRank tag in
        WriteAsync_loop fuel' this data dataSize blockSize destRank tag
          (to_ui64 (offset + blockSize)) (requests ++ [r])
    end
  else ret requests.

(** [void WriteAsync(const char* data, ui64 dataSize, ui64 blockSize,
    int destRank, int tag, TVector<TMpiRequest>* requests)]. *)
Definition WriteAsync6 (fuel : nat) (this : TMpiManager)
    (data : list byte) (dataSize blockSize destRank tag : Z)
    (requests : list TMpiRequest) : M (list TMpiRequest) :=
  WriteAsync_loop fuel this data dataSize blockSize destRank tag 0 requests.

(** [void WriteAsync(const char* data, ui64 dataSize, int destRank, int tag,
    TVector<TMpiRequest>* requests)]. *)
Definition WriteAsync5 (fuel : nat) (this : TMpiManager)
    (data : list byte) (dataSize destRank tag : Z)
    (requests : list TMpiRequest) : M (list TMpiRequest) :=
  let blockSize := to_ui64 (to_int (Z.min dataSize (to_ui64 (Z.shiftl 1 30)))) in
  WriteAsync6 fuel this data dataSize blockSize destRank tag requests.

(** [bool AreRequestsComplete(const TVector<TMpiRequest>&)]: stops at the first
    request that is not complete. *)
Fixpoint AreRequestsComplete (MpiRequests : list TMpiRequest)
  : M (bool * list TMpiRequest) :=
  match MpiRequests with
  | [] => ret (true, [])
  | request :: rest =>
      let* '(complete, request') := IsComplete request in
      if negb complete then ret (false, request' :: rest)
      else
        let* '(all, rest') := AreRequestsComplete rest in
        ret (all, request' :: rest')
  end.


(** [TBuffer DynamicReceive(int rank, int tag)].  [data] is the address of
    the storage the local [TBuffer] gets from [Resize]. *)
Definition DynamicReceive (this : TMpiManager) (rank tag : Z) (data : Z) : M (list byte) :=
  let* status := MPI_SAFE_CALL (MPI_Probe (HostId this) rank tag) in
  let* size := MPI_SAFE_CALL (MPI_Get_count status) in
  let size := to_int size in
  let* _ := MPI_SAFE_CALL (MPI_Recv (HostId this) data size rank tag) in
  read_memory (HostId this) data (Z.to_nat size).

(** ** [TMpiManager]: tasks *)

(** Modelled from the spec: [TSerializedTask] is declared in task_factory.h;
    the spec gives it as an opaque, pre-serialized byte buffer.  [Size()] is
    its length and [Data()] its bytes. *)
Record TSerializedTask : Type := mkTask { task_bytes : list byte }.

Definition task_Size (task : TSerializedTask) : Z := Z.of_nat (length (task_bytes task)).
Definition task_Data (task : TSerializedTask) : list byte := task_bytes task.

(** [void SendTask(const TSerializedTask& task, const TDeviceId& deviceId)]. *)
Definition SendTask (this : TMpiManager) (task : TSerializedTask) (deviceId : TDeviceId)
  : M unit :=
  let* _ := lift (Y_ASSERT (IsMaster this)) in
  let size := to_int (task_Size task) in
  let* _ := lift (Y_ASSERT (size <? to_int BufferSize)) in
  let* _ := lift (Y_ASSERT (negb (size =? 0))) in
  if UseBSendForTasks this then
    let* tag := lift (GetTaskTag deviceId) in
    MPI_SAFE_CALL (MPI_Bsend (HostId this) (task_Data task) size (HostIdOf deviceId) tag)
  else
    let* tag := lift (GetTaskTag deviceId) in
    MPI_SAFE_CALL (MPI_Send (HostId this) (task_Data task) size (HostIdOf deviceId) tag).

(** ** [TMpiManager]: typed values *)

(** What the templates need to know about [T].  [is_pod] is
    [std::is_pod<T>::value] and [sizeof] is [sizeof(T)]; [object_bytes] is
    the object representation read through
    [reinterpret_cast<const char*>(&value)], and [object_of_bytes] the value
    of an object that holds these bytes.  [Save] and [Load] are the generic
    serializer of util ([::Save], [::Load]). *)
Class Wire (T : Type) : Type := mkWire {
  is_pod : bool;
  sizeof : Z;
  object_bytes : T -> list byte;
  object_of_bytes : list byte -> T;
  Save : T -> list byte;
  Load : list byte -> T
}.

Arguments is_pod T {_}.
Arguments sizeof T {_}.

(** A fixed-layout type: the object representation has [sizeof(T)] bytes and
    determines the value. *)
Class PodLayout (T : Type) `{Wire T} : Prop := mkPodLayout {
  pod_size : forall v : T, Z.of_nat (length (object_bytes v)) = sizeof T;
  pod_value : forall v : T, object_of_bytes (object_bytes v) = v
}.

Section Typed.

Context {T : Type} `{Wire T}.

(** [template <class T> void SendPod(const T& value, int rank, int tag)]. *)
Definition SendPod (this : TMpiManager) (value : T) (rank tag : Z) : M unit :=
  let* _ := lift (CB_ENSURE (is_pod T)) in
  Write this (object_bytes value) (to_int (sizeof T)) rank tag.

(** [template <class T> void Send(const T& value, int rank, int tag)]. *)
Definition Send (this : TMpiManager) (value : T) (rank tag : Z) : M unit :=
  if is_pod T then SendPod this value rank tag
  else
    let buffer := Save value in
    Write this buffer (to_int (Z.of_nat (length buffer))) rank tag.

(** [template <class T> TMpiRequest ReceivePodAsync(int rank, int tag, T* dst)]. *)
Definition ReceivePodAsync (this : TMpiManager) (rank tag : Z) (dst : Z) : M TMpiRequest :=
  let* _ := lift (CB_ENSURE (is_pod T)) in
  ReadAsync4 this dst (to_int (sizeof T)) rank tag.

(** [template <class T> T Receive(int rank, int tag)].  [result] is the
    address of the local variable of that name and [buffer] the address of
    the storage of the local [TBuffer]; the temporary request is destroyed
    at the end of its statement. *)
Definition Receive (this : TMpiManager) (rank tag : Z) (result buffer : Z) : M T :=
  if is_pod T then
    let* r := ReceivePodAsync this rank tag result in
    let* r := WaitComplete r in
    let* _ := lift (destroy r) in
    let* bytes := read_memory (HostId this) result (Z.to_nat (sizeof T)) in
    ret (object_of_bytes bytes)
  else
    let* bytes := DynamicReceive this rank tag buffer in
    ret (Load bytes).

End Typed.

(** ** Definitions used to state the properties *)

(** The calls that take a request and leave one behind.  [Wait(interval)]
    polls through [TSpinWaitHelper], which is not part of the header: it is
    a sequence of [Poll]. *)
Inductive RequestCall : Type :=
| Poll           (* IsComplete *)
| WaitFor        (* WaitComplete *)
| Cancel.        (* Abort *)

Definition call (c : RequestCall) (r : TMpiRequest) : M TMpiRequest :=
  match c with
  | Poll => let* '(_, r') := IsComplete r in ret r'
  | WaitFor => WaitComplete r
  | Cancel => Abort r
  end.

Fixpoint calls (cs : list RequestCall) (r : TMpiRequest) : M TMpiRequest :=
  match cs with
  | [] => ret r
  | c :: cs' => let* r' := call c r in calls cs' r'
  end.

(** A request holds a transfer when it is created and names its handle. *)
Definition holds (r : TMpiRequest) (request : MPI_Request) : Prop :=
  IsCreated r = true /\ Request r = Some request.

(** Nothing in flight: no message queued and no receive posted. *)
Definition idle (w : World) : Prop := w_queue w = [] /\ w_posted w = [].

(** A world with nothing in flight and the given memory. *)
Definition World0 (mem : Z -> Z -> byte) : World := mkWorld [] [] ∅ mem 0 [].

Definition zero_memory : Z -> Z -> byte := fun _ _ => Byte.x00.

(** *** Blocks

    The list [l] cut into consecutive pieces of [bs] elements, the last
    piece possibly shorter.  This definition follows the words of the spec;
    the theorems compare the loops of [WriteAsync] and [ReadAsync] with it. *)
Fixpoint blocks_upto (n bs : nat) (l : list byte) : list (list byte) :=
  match n with
  | O => []
  | S n' =>
      match l with
      | [] => []
      | _ :: _ => take bs l :: blocks_upto n' bs (drop bs l)
      end
  end.

Definition blocks (bs : nat) (l : list byte) : list (list byte) :=
  blocks_upto (length l) bs l.

(** [ceil (s / b)]. *)
Definition ceil_div (s b : Z) : Z := (s + b - 1) / b.

(** [k] request handles in a row, and the requests made from them. *)
Fixpoint handles (request : MPI_Request) (k : nat) : list MPI_Request :=
  match k with
  | O => []
  | S k' => request :: handles (request + 1) k'
  end.

Definition pending_requests (request : MPI_Request) (k : nat) : list TMpiRequest :=
  map TMpiRequest_of (handles request k).

(** *** Worlds after a row of sends and of posted receives *)

(** The world after a successful [MPI_Isend] of the bytes [b]. *)
Definition after_Isend (rank dest tag : Z) (b : list byte) (w : World) : World :=
  let count := Z.of_nat (length b) in
  let w := trace (Call_Isend rank dest tag count) w in
  set_next (w_next w + 1)
    (set_done (<[w_next w := count]> (w_done w))
      (set_queue (w_queue w ++ [mkMessage rank dest tag b]) w)).

Definition after_sends (rank dest tag : Z) (B : list (list byte)) (w : World) : World :=
  fold_left (fun w b => after_Isend rank dest tag b w) B w.

(** The world after a successful [MPI_Irecv]. *)
Definition after_Irecv (rank source tag buf count : Z) (w : World) : World :=
  let w := trace (Call_Irecv rank source tag buf count) w in
  set_next (w_next w + 1)
    (set_done (delete (w_next w) (w_done w))
      (set_posted (w_posted w ++ [mkPosted (w_next w) rank source tag buf count]) w)).

(** One receive per block of [B], the buffers [bs] bytes apart. *)
Fixpoint after_recvs (rank source tag bs buf : Z) (B : list (list byte)) (w : World) : World :=
  match B with
  | [] => w
  | b :: B' =>
      after_recvs rank source tag bs (buf + bs) B'
        (after_Irecv rank source tag buf (Z.of_nat (length b)) w)
  end.

Fixpoint receives (rank source tag bs buf : Z) (request : MPI_Request) (B : list (list byte))
  : list Posted :=
  match B with
  | [] => []
  | b :: B' =>
      mkPosted request rank source tag buf (Z.of_nat (length b))
      :: receives rank source tag bs (buf + bs) (request + 1) B'
  end.

(** A message answers a posted receive and is not too long for it. *)
Definition fits (p : Posted) (m : Message) : Prop :=
  matches p m = true /\ Z.of_nat (length (msg_bytes m)) <= rcv_count p.

(** The world after each receive of [P] took the message of [Ms] at its
    position, where the queue is [Ms]. *)
Fixpoint deliveries (P : list Posted) (Ms : list Message) (w : World) : World :=
  match P, Ms with
  | p :: P', m :: Ms' => deliveries P' Ms' (deliver p m Ms' w)
  | _, _ => w
  end.

(** The blocks of [B] stored [bs] bytes apart from [addr] on. *)
Fixpoint store_blocks (mem : Z -> byte) (bs addr : Z) (B : list (list byte)) : Z -> byte :=
  match B with
  | [] => mem
  | b :: B' => store_blocks (store_bytes mem addr b) bs (addr + bs) B'
  end.

(** The bounds under which the loop arithmetic does not wrap. *)
Definition block_bounds (data : list byte) (dataSize blockSize : Z) : Prop :=
  dataSize = Z.of_nat (length data) /\
  0 < blockSize <= INT_MAX /\
  dataSize < 9223372036854775808.

(** The bounds of the chunked send itself: [dataSize] is the size of the
    payload, the largest block, which is the first, fits the [int] count of
    one message, and the [ui64] offset after the last block does not
    wrap. *)
Definition send_bounds (data : list byte) (dataSize blockSize : Z) : Prop :=
  dataSize = Z.of_nat (length data) /\
  0 < blockSize /\
  Z.min blockSize dataSize <= INT_MAX /\
  ceil_div dataSize blockSize * blockSize < 18446744073709551616.

(** *** The transfer of the round-trip property *)

(** Waiting for every request of a vector, in order. *)
Fixpoint WaitAll (requests : list TMpiRequest) : M (list TMpiRequest) :=
  match requests with
  | [] => ret []
  | r :: rest =>
      let* r' := WaitComplete r in
      let* rest' := WaitAll rest in
      ret (r' :: rest')
  end.

(** The sender issues the chunked send, the receiver the matching chunked
    receive into the buffer at [dst], and both wait for all their
    requests. *)
Definition chunked_transfer6 (fuel : nat) (sender receiver : TMpiManager)
    (data : list byte) (dataSize blockSize tag dst : Z)
  : M (list TMpiRequest * list TMpiRequest) :=
  let* sends := WriteAsync6 fuel sender data dataSize blockSize (HostId receiver) tag [] in
  let* recvs := ReadAsync6 fuel receiver dst dataSize blockSize (HostId sender) tag [] in
  let* sends := WaitAll sends in
  let* recvs := WaitAll recvs in
  ret (sends, recvs).

Definition chunked_transfer (fuel : nat) (sender receiver : TMpiManager)
    (data : list byte) (dataSize tag dst : Z)
  : M (list TMpiRequest * list TMpiRequest) :=
  let* sends := WriteAsync5 fuel sender data dataSize (HostId receiver) tag [] in
  let* recvs := ReadAsync5 fuel receiver dst dataSize (HostId sender) tag [] in
  let* sends := WaitAll sends in
  let* recvs := WaitAll recvs in
  ret (sends, recvs).

(** The typed round trip: one process sends [value], the other receives. *)
Definition typed_transfer {T : Type} `{Wire T} (sender receiver : TMpiManager)
    (value : T) (tag result buffer : Z) : M T :=
  let* _ := Send sender value (HostId receiver) tag in
  Receive receiver (HostId sender) tag result buffer.

(** *** Worlds after progress *)

(** Every posted receive has its message at the same position of the
    queue. *)
Definition aligned (w : World) : Prop := Forall2 fits (w_posted w) (w_queue w).

(** The world after the library has made progress on an aligned world. *)
Definition settle (w : World) : World :=
  set_posted [] (deliveries (w_posted w) (w_queue w) w).

Definition traces (cs : list MpiCall) (w : World) : World :=
  fold_left (fun w c => trace c w) cs w.

(** The request for handle [request] after a wait in world [w]. *)
Definition completed (w : World) (request : MPI_Request) : TMpiRequest :=
  mkRequest 1 (Some request) (Some (mkStatus (default 0 (w_done w !! request)))).

(** *** Two fixed-layout types *)

(** [char]: one byte. *)
#[global] Instance char_wire : Wire byte := {|
  is_pod := true;
  sizeof := 1;
  object_bytes := fun v => [v];
  object_of_bytes := fun l => hd Byte.x00 l;
  Save := fun v => [v];
  Load := fun l => hd Byte.x00 l
|}.

(** [struct { char a[1u << 31]; }]: an array of 2^31 bytes. *)
Definition two_gib : nat := Z.to_nat 2147483648.

Definition BigArray : Type := { l : list byte | length l = two_gib }.

Definition BigArray_zero : BigArray :=
  exist _ (repeat Byte.x00 two_gib) (repeat_length Byte.x00 two_gib).

Definition BigArray_of_bytes (l : list byte) : BigArray :=
  match Nat.eq_dec (length l) two_gib with
  | left H => exist _ l H
  | right _ => BigArray_zero
  end.

#[global] Instance BigArray_wire : Wire BigArray := {|
  is_pod := true;
  sizeof := 2147483648;
  object_bytes := fun v => proj1_sig v;
  object_of_bytes := BigArray_of_bytes;
  Save := fun v => proj1_sig v;
  Load := BigArray_of_bytes
|}.
(** ** More of the header, and the call sequences of the further properties *)

(** [TMpiRequest ReceiveBufferAsync(int rank, int tag, TBuffer* dst)].  The
    buffer is given by the address of its storage, [dst->Data()], and by
    its size, [dst->Size()]. *)
Definition ReceiveBufferAsync (this : TMpiManager) (rank tag : Z) (dst_Data dst_Size : Z)
  : M TMpiRequest :=
  ReadAsync4 this dst_Data (to_int dst_Size) rank tag.

(** [n] calls of [NextCommunicationTag] in a row: the tags, oldest first. *)
Fixpoint allocate (n : nat) (m : TMpiManager) : Outcome (list Z * TMpiManager) :=
  match n with
  | O => Returns ([], m)
  | S n' =>
      obind (NextCommunicationTag m) (fun '(tag, m1) =>
      obind (allocate n' m1) (fun '(tags, m2) =>
      Returns (tag :: tags, m2)))
  end.

(** The chunked transfer with the receives posted before the sends. *)
Definition chunked_transfer6_receiver_first (fuel : nat) (sender receiver : TMpiManager)
    (data : list byte) (dataSize blockSize tag dst : Z)
  : M (list TMpiRequest * list TMpiRequest) :=
  let* recvs := ReadAsync6 fuel receiver dst dataSize blockSize (HostId sender) tag [] in
  let* sends := WriteAsync6 fuel sender data dataSize blockSize (HostId receiver) tag [] in
  let* recvs := WaitAll recvs in
  let* sends := WaitAll sends in
  ret (sends, recvs).

(** A blocking [Write] answered by a blocking [Read] into a buffer of
    [bufSize] bytes at [dst]. *)
Definition blocking_transfer (sender receiver : TMpiManager)
    (data : list byte) (dataSize tag dst bufSize : Z) : M unit :=
  let* _ := Write sender data dataSize (HostId receiver) tag in
  Read receiver dst bufSize (HostId sender) tag.

(** A blocking [Write] answered by [DynamicReceive]. *)
Definition dynamic_transfer (sender receiver : TMpiManager)
    (data : list byte) (dataSize tag dst : Z) : M (list byte) :=
  let* _ := Write sender data dataSize (HostId receiver) tag in
  DynamicReceive receiver (HostId sender) tag dst.

(** [SendTask] on the master, answered on the host of the device by a
    [DynamicReceive] on the task tag of the device. *)
Definition task_transfer (master worker : TMpiManager)
    (task : TSerializedTask) (deviceId : TDeviceId) (dst : Z) : M (list byte) :=
  let* _ := SendTask master task deviceId in
  let* tag := lift (GetTaskTag deviceId) in
  DynamicReceive worker (HostId master) tag dst.

(** A [Write] received into a [TBuffer] through [ReceiveBufferAsync]; the
    number of bytes is asked for after the wait. *)
Definition sized_receive (sender receiver : TMpiManager)
    (data : list byte) (dataSize tag dst_Data dst_Size : Z) : M (Z * TMpiRequest) :=
  let* _ := Write sender data dataSize (HostId receiver) tag in
  let* r := ReceiveBufferAsync receiver (HostId sender) tag dst_Data dst_Size in
  let* r := WaitComplete r in
  let* received := ReceivedBytes r in
  ret (received, r).




(** A type that is not fixed-layout and is serialized as its bytes (a
    string). *)
Definition string_wire : Wire (list byte) := {|
  is_pod := false;
  sizeof := 24;
  object_bytes := fun v => v;
  object_of_bytes := fun l => l;
  Save := fun v => v;
  Load := fun l => l
|}.

(** * Properties *)

(** ** Fixed-width conversions *)

Section MachineIntFacts.

Lemma to_int_unfold z : to_int z = (z + 2147483648) mod 4294967296 - 2147483648.
Proof. reflexivity. Qed.

Lemma to_int_small z : INT_MIN <= z <= INT_MAX -> to_int z = z.
Proof.
  unfold INT_MIN, INT_MAX. intros Hz.
  rewrite to_int_unfold, Z.mod_small; lia.
Qed.

Lemma to_int_range z : INT_MIN <= to_int z <= INT_MAX.
Proof.
  unfold INT_MIN, INT_MAX. rewrite to_int_unfold.
  pose proof (Z.mod_pos_bound (z + 2147483648) 4294967296). lia.
Qed.

(** The conversion keeps the value modulo [2^32]. *)
Lemma to_int_congr z : exists k, to_int z = z + k * 4294967296.
Proof.
  exists (- ((z + 2147483648) / 4294967296)).
  rewrite to_int_unfold, Z.mod_eq by lia. lia.
Qed.

Lemma to_int_low_bits z : to_int z mod 1024 = z mod 1024.
Proof.
  destruct (to_int_congr z) as [k ->].
  replace (z + k * 4294967296) with (z + (k * 4194304) * 1024) by lia.
  apply Z_mod_plus_full.
Qed.

Lemma to_ui64_small z : 0 <= z < 2 ^ 64 -> to_ui64 z = z.
Proof. intros Hz. unfold to_ui64. apply Z.mod_small. lia. Qed.

Lemma to_intptr_small z :
  -9223372036854775808 <= z < 9223372036854775808 -> to_intptr z = z.
Proof.
  intros Hz. unfold to_intptr, wrap_signed.
  change (2 ^ (64 - 1)) with 9223372036854775808.
  change (2 ^ 64) with 18446744073709551616.
  rewrite Z.mod_small; lia.
Qed.

End MachineIntFacts.

(** *** Tag arithmetic *)

Section TagArithmetic.

Lemma lor_shiftl_1023 t : Z.lor (Z.shiftl t 10) 1023 = t * 1024 + 1023.
Proof.
  rewrite Z.shiftl_mul_pow2 by lia. change (2 ^ 10) with 1024.
  symmetry. apply Z.add_nocarry_lor.
  change 1023 with (Z.ones 10). rewrite Z.land_ones by lia.
  change (2 ^ 10) with 1024. apply Z_mod_mult.
Qed.

(** Whatever the counter, the ten low bits of the tag are set. *)
Lemma tag_of_counter_mod c : tag_of_counter c mod 1024 = 1023.
Proof.
  unfold tag_of_counter.
  rewrite to_int_low_bits, lor_shiftl_1023.
  rewrite Z.add_comm, Z_mod_plus_full. reflexivity.
Qed.

Lemma tag_of_counter_low_bits c : Z.land (tag_of_counter c) 1023 = 1023.
Proof.
  change (Z.land (tag_of_counter c) (Z.ones 10) = 1023).
  rewrite Z.land_ones by lia. apply tag_of_counter_mod.
Qed.

(** Before the 32-bit reading of the counter turns negative the tag is the
    counter modulo the cycle length, moved above the ten reserved bits. *)
Lemma tag_of_counter_nonneg c :
  0 <= c <= INT_MAX ->
  tag_of_counter c = (c mod 65535) * 1024 + 1023.
Proof.
  intros Hc. unfold tag_of_counter, INT_MAX in *.
  rewrite (to_int_small c) by (unfold INT_MIN, INT_MAX; lia).
  destruct (Z.ltb_spec c 0) as [?|_]; [lia|].
  change (Z.shiftl 1 16 - 1) with 65535.
  rewrite Z.rem_mod_nonneg by lia.
  rewrite lor_shiftl_1023.
  pose proof (Z.mod_pos_bound c 65535).
  apply to_int_small. unfold INT_MIN, INT_MAX. lia.
Qed.

Lemma tag_of_counter_positive c :
  0 <= c <= INT_MAX -> 0 < tag_of_counter c < 67108864.
Proof.
  intros Hc. rewrite tag_of_counter_nonneg by assumption.
  pose proof (Z.mod_pos_bound c 65535). lia.
Qed.

Lemma mod_cycle_inj a b :
  0 <= a -> a < b -> b - a < 65535 -> a mod 65535 <> b mod 65535.
Proof.
  intros Ha Hab Hd Heq.
  assert (Hm : (b - a) mod 65535 = 0).
  { rewrite Zminus_mod, Heq, Z.sub_diag. reflexivity. }
  rewrite Z.mod_small in Hm by lia. lia.
Qed.

Lemma tag_of_counter_distinct c1 c2 :
  0 <= c1 <= INT_MAX -> 0 <= c2 <= INT_MAX ->
  c1 <> c2 -> Z.abs (c1 - c2) < 65535 ->
  tag_of_counter c1 <> tag_of_counter c2.
Proof.
  intros H1 H2 Hne Hd.
  rewrite !tag_of_counter_nonneg by assumption.
  destruct (Z.lt_ge_cases c1 c2).
  - pose proof (mod_cycle_inj c1 c2). lia.
  - pose proof (mod_cycle_inj c2 c1). lia.
Qed.

End TagArithmetic.

(** ** The tag allocator and the task tags *)

Section Tags.

Lemma NextCommunicationTag_master m :
  IsMaster m = true ->
  NextCommunicationTag m =
    Returns (tag_of_counter (AtomicIncrement (Counter m)),
             with_Counter m (AtomicIncrement (Counter m))).
Proof. intros Hm. unfold NextCommunicationTag. rewrite Hm. reflexivity. Qed.

(** As long as the counter stays below [INT_MAX] a call returns a positive
    tag whose ten low bits are set. *)
Lemma NextCommunicationTag_before_wrap m :
  IsMaster m = true -> 0 <= Counter m < INT_MAX ->
  exists tag,
    NextCommunicationTag m = Returns (tag, with_Counter m (Counter m + 1)) /\
    0 < tag /\ Z.land tag 1023 = 1023.
Proof.
  intros Hm Hc. rewrite NextCommunicationTag_master by assumption.
  unfold AtomicIncrement, INT_MAX in *. rewrite to_intptr_small by lia.
  eexists; split; [reflexivity|]. split.
  - apply tag_of_counter_positive. unfold INT_MAX. lia.
  - apply tag_of_counter_low_bits.
Qed.

(** Two calls made below [INT_MAX] whose counters are less than a cycle
    apart return different tags. *)
Lemma NextCommunicationTag_distinct_before_wrap m1 m2 t1 t2 m1' m2' :
  0 <= Counter m1 < INT_MAX -> 0 <= Counter m2 < INT_MAX ->
  Counter m1 <> Counter m2 -> Z.abs (Counter m1 - Counter m2) < 65535 ->
  NextCommunicationTag m1 = Returns (t1, m1') ->
  NextCommunicationTag m2 = Returns (t2, m2') ->
  t1 <> t2.
Proof.
  unfold INT_MAX. intros H1 H2 Hne Hd E1 E2.
  unfold NextCommunicationTag in E1, E2.
  destruct (IsMaster m1); [|discriminate]. destruct (IsMaster m2); [|discriminate].
  cbn in E1, E2. unfold AtomicIncrement in *.
  rewrite to_intptr_small in E1, E2 by lia.
  injection E1 as <- _. injection E2 as <- _.
  apply tag_of_counter_distinct; unfold INT_MAX; lia.
Qed.

(** C3, at the input where the code leaves the property.  The 2^31-th call
    (counter 2147483647 before it) reads the counter as [INT_MIN]; the
    negation leaves it negative, and the tag returned is negative.  The call
    after it returns the base value that the call before it had: the two
    counters are two apart and the tags are the same. *)
Theorem NextCommunicationTag_at_int_wrap :
  NextCommunicationTag (mkManager 2 0 2147483647 false)
    = Returns (-33553409, mkManager 2 0 2147483648 false) /\
  NextCommunicationTag (mkManager 2 0 2147483646 false)
    = Returns (33554431, mkManager 2 0 2147483647 false) /\
  NextCommunicationTag (mkManager 2 0 2147483648 false)
    = Returns (33554431, mkManager 2 0 2147483649 false).
Proof. repeat split; vm_compute; reflexivity. Qed.

Lemma GetTaskTag_small deviceId :
  0 <= DeviceId deviceId < INT_MAX ->
  GetTaskTag deviceId = Returns (DeviceId deviceId + 1).
Proof.
  unfold INT_MAX. intros Hd. unfold GetTaskTag, Y_ASSERT, check.
  destruct (Z.leb_spec 0 (DeviceId deviceId)) as [_|?]; [|lia].
  cbn. rewrite to_int_small by (unfold INT_MIN, INT_MAX; lia). reflexivity.
Qed.

(** C9 as stated fails: the device with local id 1022 has the task tag 1023,
    and 1023 is the tag the allocator returns when its counter reaches the
    cycle length. *)
Lemma task_tag_meets_allocated_tag :
  GetTaskTag (mkDeviceId 0 1022) = Returns 1023 /\
  NextCommunicationTag (mkManager 2 0 65534 false)
    = Returns (1023, mkManager 2 0 65535 false).
Proof. split; vm_compute; reflexivity. Qed.

(** C9, amended: for a device whose local id is below 1022 the task tag is
    the local id plus one, and no call of the allocator, whatever its
    counter, returns that tag. *)
Theorem task_tag_apart_from_allocated_tags deviceId m :
  0 <= DeviceId deviceId < 1022 ->
  IsMaster m = true ->
  GetTaskTag deviceId = Returns (DeviceId deviceId + 1) /\
  exists tag m',
    NextCommunicationTag m = Returns (tag, m') /\
    tag <> DeviceId deviceId + 1.
Proof.
  intros Hd Hm. split.
  - apply GetTaskTag_small. unfold INT_MAX. lia.
  - rewrite NextCommunicationTag_master by assumption.
    eexists _, _. split; [reflexivity|].
    intros Heq.
    pose proof (tag_of_counter_mod (AtomicIncrement (Counter m))) as Hlow.
    rewrite Heq in Hlow. rewrite Z.mod_small in Hlow by lia. lia.
Qed.

Lemma task_tag_apart_from_allocated_tags_witness :
  GetTaskTag (mkDeviceId 1 3) = Returns 4 /\
  exists tag m',
    NextCommunicationTag (mkManager 2 0 0 false) = Returns (tag, m') /\
    tag <> 4.
Proof.
  apply (task_tag_apart_from_allocated_tags (mkDeviceId 1 3) (mkManager 2 0 0 false)).
  - cbn. lia.
  - reflexivity.
Defined.

End Tags.

(** ** The life of a request *)

Section RequestLife.

Lemma state_of_flag r :
  match state_of r with
  | Empty => Flag r = -1
  | Pending => Flag r = 0
  | Complete => Flag r <> -1 /\ Flag r <> 0
  end.
Proof.
  unfold state_of.
  destruct (Z.eqb_spec (Flag r) (-1)); [assumption|].
  destruct (Z.eqb_spec (Flag r) 0); [assumption|]. split; assumption.
Qed.

Lemma state_Complete_flags r :
  state_of r = Complete -> (Flag r =? -1) = false /\ (Flag r =? 0) = false.
Proof.
  intros Hs. pose proof (state_of_flag r) as Hf. rewrite Hs in Hf.
  split; apply Z.eqb_neq; apply Hf.
Qed.

Lemma state_Empty_flag r : state_of r = Empty -> (Flag r =? -1) = true.
Proof.
  intros Hs. pose proof (state_of_flag r) as Hf. rewrite Hs in Hf.
  apply Z.eqb_eq, Hf.
Qed.

Lemma state_Pending_flags r :
  state_of r = Pending -> (Flag r =? -1) = false /\ (Flag r =? 0) = true.
Proof.
  intros Hs. pose proof (state_of_flag r) as Hf. rewrite Hs in Hf.
  rewrite Hf. split; reflexivity.
Qed.

Lemma IsComplete_when_complete r w :
  state_of r = Complete -> IsComplete r w = Returns ((true, r), w).
Proof.
  intros Hs. destruct (state_Complete_flags r Hs) as [H1 H0].
  unfold IsComplete, bind, lift, Y_ASSERT, CB_ENSURE, check, ret.
  rewrite H1, H0. reflexivity.
Qed.

Lemma WaitComplete_when_complete r w :
  state_of r = Complete -> WaitComplete r w = Returns (r, w).
Proof.
  intros Hs. destruct (state_Complete_flags r Hs) as [H1 H0].
  unfold WaitComplete, bind, lift, CB_ENSURE, check, ret.
  rewrite H1, H0. reflexivity.
Qed.

Lemma Abort_when_complete r w :
  state_of r = Complete -> Abort r w = Returns (r, w).
Proof.
  intros Hs. destruct (state_Complete_flags r Hs) as [H1 H0].
  unfold Abort, bind, lift, CB_ENSURE, check, ret.
  rewrite H1, H0. reflexivity.
Qed.

Lemma calls_when_complete cs r w :
  state_of r = Complete -> calls cs r w = Returns (r, w).
Proof.
  intros Hs. induction cs as [|c cs IH]; [reflexivity|].
  cbn [calls]. unfold bind at 1.
  assert (Hc : call c r w = Returns (r, w)).
  { destruct c; cbn [call].
    - unfold bind. rewrite IsComplete_when_complete by assumption. reflexivity.
    - apply WaitComplete_when_complete; assumption.
    - apply Abort_when_complete; assumption. }
  rewrite Hc. exact IH.
Qed.

(** What [MPI_Test] can hand back through [MPI_SAFE_CALL]: flag 1 with a
    status, or flag 0 without. *)
Lemma MPI_Test_safe request w flag status w' :
  MPI_SAFE_CALL (MPI_Test request) w = Returns ((flag, status), w') ->
  (flag = 1 /\ exists s, status = Some s) \/ (flag = 0 /\ status = None).
Proof.
  unfold MPI_SAFE_CALL, MPI_Test.
  destruct (progress _) as [e w1].
  destruct (e =? MPI_SUCCESS) eqn:He; cbn [negb].
  - destruct (w_done w1 !! request); cbn; intros [= <- <- <-]; eauto.
  - rewrite Z.eqb_sym, He. discriminate.
Qed.

Lemma WaitComplete_reaches_complete r0 w0 r w :
  WaitComplete r0 w0 = Returns (r, w) -> state_of r = Complete.
Proof.
  unfold WaitComplete, bind, lift, CB_ENSURE, check, ret, defined.
  destruct (Flag r0 =? -1) eqn:H1; cbn [negb]; [discriminate|].
  destruct (Flag r0 =? 0) eqn:H0.
  - destruct (Request r0); [|discriminate].
    destruct (MPI_SAFE_CALL _ _) as [[st w1]|]; [|discriminate].
    intros [= <- <-]. reflexivity.
  - intros [= <- <-]. unfold state_of. rewrite H1, H0. reflexivity.
Qed.

Lemma IsComplete_true_reaches_complete r0 w0 r w :
  IsComplete r0 w0 = Returns ((true, r), w) -> state_of r = Complete.
Proof.
  unfold IsComplete, bind, lift, Y_ASSERT, CB_ENSURE, check, ret, defined.
  destruct (Flag r0 =? -1) eqn:H1; cbn [negb]; [discriminate|].
  destruct (Flag r0 =? 0) eqn:H0.
  - destruct (Request r0); [|discriminate].
    destruct (MPI_SAFE_CALL _ _) as [[[flag status] w1]|] eqn:Ht; [|discriminate].
    apply MPI_Test_safe in Ht as [[-> _]|[-> _]]; cbn.
    + intros [= <- <-]. reflexivity.
    + discriminate.
  - cbn. intros [= <- <-]. unfold state_of. rewrite H1, H0. reflexivity.
Qed.

(** C6: a request that a wait or a successful poll has left is complete, and
    from then on every poll returns true, every wait and every cancel
    returns at once, each with the request and the world (so also the log of
    transport calls) unchanged; the same holds after any sequence of these
    calls, so the request is never pending again.  (A move assignment into
    an object replaces the request the object holds; it is not a call on
    the request.) *)
Theorem completion_is_monotone r0 w0 r w :
  WaitComplete r0 w0 = Returns (r, w) \/ IsComplete r0 w0 = Returns ((true, r), w) ->
  state_of r = Complete /\
  forall w',
    IsComplete r w' = Returns ((true, r), w') /\
    WaitComplete r w' = Returns (r, w') /\
    forall cs, calls cs r w' = Returns (r, w').
Proof.
  intros Hreach.
  assert (Hs : state_of r = Complete).
  { destruct Hreach as [Hw|Hp].
    - eapply WaitComplete_reaches_complete; eassumption.
    - eapply IsComplete_true_reaches_complete; eassumption. }
  split; [assumption|]. intros w'. split; [|split].
  - apply IsComplete_when_complete; assumption.
  - apply WaitComplete_when_complete; assumption.
  - intros cs. apply calls_when_complete; assumption.
Qed.

Lemma completion_is_monotone_witness :
  let w0 := World0 zero_memory in
  exists w1 r w,
    WriteAsync4 (mkManager 2 0 0 false) [Byte.x01; Byte.x02] 2 1 1023 w0
      = Returns (TMpiRequest_of 0, w1) /\
    WaitComplete (TMpiRequest_of 0) w1 = Returns (r, w) /\
    state_of r = Complete /\
    forall w',
      IsComplete r w' = Returns ((true, r), w') /\
      WaitComplete r w' = Returns (r, w') /\
      forall cs, calls cs r w' = Returns (r, w').
Proof.
  intros w0. eexists _, _, _.
  split; [vm_compute; reflexivity|].
  match goal with
  | |- ?A /\ _ => assert (Hw : A) by (vm_compute; reflexivity)
  end.
  split; [exact Hw|].
  exact (completion_is_monotone _ _ _ _ (or_introl Hw)).
Defined.

(** C7: on an empty request the four queries stop in a usage error; the
    destructor stops in one on a pending request and returns on an empty
    and on a complete one.  A request made by the default constructor is
    empty. *)
Theorem queries_and_destructor_by_state r w :
  state_of TMpiRequest_default = Empty /\
  match state_of r with
  | Empty =>
      fails_fatally (IsComplete r w) = true /\
      fails_fatally (WaitComplete r w) = true /\
      fails_fatally (ReceivedBytes r w) = true /\
      fails_fatally (Abort r w) = true /\
      destroy r = Returns tt
  | Pending => fails_fatally (destroy r) = true
  | Complete => destroy r = Returns tt
  end.
Proof.
  split; [reflexivity|].
  destruct (state_of r) eqn:Hs.
  - pose proof (state_Empty_flag r Hs) as H1.
    unfold IsComplete, WaitComplete, ReceivedBytes, Abort, destroy,
      bind, lift, Y_ASSERT, CB_ENSURE, check.
    rewrite H1. repeat split; reflexivity.
  - destruct (state_Pending_flags r Hs) as [H1 H0].
    unfold destroy, Y_VERIFY, check. rewrite H1, H0. reflexivity.
  - destruct (state_Complete_flags r Hs) as [H1 H0].
    unfold destroy, Y_VERIFY, check. rewrite H1, H0. reflexivity.
Qed.

(** C8 as stated fails: [Abort] on a complete request returns, and leaves
    the request complete and the world as it was. *)
Lemma Abort_on_complete_returns :
  let r := mkRequest 1 (Some 0) (Some (mkStatus 4)) in
  let w := World0 zero_memory in
  state_of r = Complete /\
  Abort r w = Returns (r, w) /\
  fails_fatally (Abort r w) = false.
Proof. repeat split. Qed.

(** C8, amended: [Abort] on a pending request cancels the transfer and
    leaves the request empty; on an empty request it stops in a usage error;
    on a complete request it returns and changes nothing. *)
Theorem Abort_by_state r w :
  match state_of r with
  | Pending =>
      match Request r with
      | Some request =>
          exists w',
            Abort r w = Returns (with_Flag (-1) r, w') /\
            state_of (with_Flag (-1) r) = Empty /\
            w_log w' = w_log w ++ [Call_Cancel request]
      | None => Abort r w = Stops Undefined
      end
  | Empty => Abort r w = Stops EnsureFailed
  | Complete => Abort r w = Returns (r, w)
  end.
Proof.
  destruct (state_of r) eqn:Hs.
  - pose proof (state_Empty_flag r Hs) as H1.
    unfold Abort, bind, lift, CB_ENSURE, check. rewrite H1. reflexivity.
  - destruct (state_Pending_flags r Hs) as [H1 H0].
    unfold Abort, bind, lift, CB_ENSURE, check, defined, ret.
    rewrite H1, H0. cbn [negb].
    destruct (Request r) as [request|]; [|reflexivity].
    eexists. split; [reflexivity|]. split; reflexivity.
  - apply Abort_when_complete; assumption.
Qed.

(** Once every request of a vector is complete, [AreRequestsComplete] says
    so and calls nothing. *)
Lemma AreRequestsComplete_when_complete requests w :
  Forall (fun r => state_of r = Complete) requests ->
  AreRequestsComplete requests w = Returns ((true, requests), w).
Proof.
  induction 1 as [|r requests Hr _ IH]; [reflexivity|].
  cbn [AreRequestsComplete]. unfold bind at 1.
  rewrite IsComplete_when_complete by assumption. cbn [negb].
  unfold bind. rewrite IH. reflexivity.
Qed.

End RequestLife.

(** ** Moving a request *)

Section Moves.

Implicit Types s : gmap Z TMpiRequest.

Lemma request_eta r : mkRequest (Flag r) (Request r) (Status r) = r.
Proof. destruct r; reflexivity. Qed.

Lemma Clear_is_empty r :
  state_of (Clear r) = Empty /\ IsCreated (Clear r) = false /\
  destroy (Clear r) = Returns tt /\ forall request, ~ holds (Clear r) request.
Proof.
  repeat split. intros request [Hc _]. discriminate Hc.
Qed.

Lemma move_body_self s this : move_body this this s = Returns s.
Proof. unfold move_body. rewrite Z.eqb_refl. reflexivity. Qed.

Lemma move_body_apart s this other o :
  this <> other -> s !! other = Some o -> is_Some (s !! this) ->
  move_body this other s = Returns (<[other := Clear o]> (<[this := o]> s)).
Proof.
  intros Hne Ho [t Ht]. unfold move_body.
  destruct (Z.eqb_spec this other) as [?|_]; [contradiction|]. cbn [negb].
  rewrite Ht, Ho, request_eta. reflexivity.
Qed.

Lemma moved_store s this other o :
  this <> other ->
  let s' := <[other := Clear o]> (<[this := o]> s) in
  s' !! this = Some o /\ s' !! other = Some (Clear o) /\
  forall a, a <> this -> a <> other -> s' !! a = s !! a.
Proof.
  intros Hne s'. subst s'. split; [|split].
  - rewrite lookup_insert_ne by congruence. apply lookup_insert_eq.
  - apply lookup_insert_eq.
  - intros a Ht Ho. rewrite !lookup_insert_ne by congruence. reflexivity.
Qed.

(** C10: a move from another object hands flag, handle and status over to
    the destination and leaves the source empty: the source reports that it
    is not created, holds no handle, and its destructor returns.  A move
    assignment of an object to itself changes nothing. *)
Theorem move_hands_over_and_empties s this other o :
  this <> other -> s !! other = Some o ->
  (is_Some (s !! this) ->
   exists s',
     move_assign this other s = Returns s' /\
     s' !! this = Some o /\ s' !! other = Some (Clear o) /\
     (forall a, a <> this -> a <> other -> s' !! a = s !! a) /\
     destroy_at other s' = Returns (delete other s')) /\
  (exists s',
     move_construct this other s = Returns s' /\
     s' !! this = Some o /\ s' !! other = Some (Clear o) /\
     (forall a, a <> this -> a <> other -> s' !! a = s !! a) /\
     destroy_at other s' = Returns (delete other s')) /\
  (state_of (Clear o) = Empty /\ IsCreated (Clear o) = false /\
   destroy (Clear o) = Returns tt /\ forall request, ~ holds (Clear o) request) /\
  move_assign this this s = Returns s /\
  move_assign other other s = Returns s.
Proof.
  intros Hne Ho. split; [|split; [|split; [|split]]].
  - intros Hthis. eexists. split.
    + unfold move_assign. apply move_body_apart; eassumption.
    + destruct (moved_store s this other o Hne) as (H1 & H2 & H3).
      repeat split; try assumption.
      unfold destroy_at. rewrite H2. reflexivity.
  - eexists. split.
    + unfold move_construct. apply move_body_apart; [assumption| |].
      * rewrite lookup_insert_ne by congruence. exact Ho.
      * rewrite lookup_insert_eq. eauto.
    + destruct (moved_store (<[this := TMpiRequest_default]> s) this other o Hne)
        as (H1 & H2 & H3).
      repeat split; try assumption.
      * intros a Ha1 Ha2. rewrite H3 by assumption.
        apply lookup_insert_ne. congruence.
      * unfold destroy_at. rewrite H2. reflexivity.
  - apply Clear_is_empty.
  - apply move_body_self.
  - apply move_body_self.
Qed.

Lemma move_hands_over_and_empties_witness :
  let s : gmap Z TMpiRequest := <[10 := TMpiRequest_of 7]> (<[20 := TMpiRequest_default]> ∅) in
  exists s',
    move_assign 20 10 s = Returns s' /\
    s' !! 20 = Some (TMpiRequest_of 7) /\ s' !! 10 = Some (Clear (TMpiRequest_of 7)) /\
    destroy_at 10 s' = Returns (delete 10 s').
Proof.
  intros s.
  assert (Hne : (20 : Z) <> 10) by lia.
  assert (Ho : s !! 10 = Some (TMpiRequest_of 7)) by reflexivity.
  assert (Ht : is_Some (s !! 20)) by (exists TMpiRequest_default; reflexivity).
  destruct (move_hands_over_and_empties s 20 10 (TMpiRequest_of 7) Hne Ho)
    as [Hassign _].
  destruct (Hassign Ht) as (s' & H1 & H2 & H3 & _ & H5).
  exists s'. repeat split; assumption.
Defined.

End Moves.

(** ** Sending a task *)

Section Tasks.

Lemma to_int_BufferSize : to_int BufferSize = BufferSize.
Proof. reflexivity. Qed.

Lemma take_all {A : Type} (l : list A) : take (Z.to_nat (Z.of_nat (length l))) l = l.
Proof. rewrite Nat2Z.id. apply firstn_all. Qed.

(** The outcome of [SendTask] on the master, by the size as an [int]. *)
Lemma SendTask_outcome this task deviceId w :
  IsMaster this = true -> 0 <= DeviceId deviceId < INT_MAX ->
  let size := to_int (task_Size task) in
  let tag := DeviceId deviceId + 1 in
  let dest := HostIdOf deviceId in
  SendTask this task deviceId w =
    if negb (size <? BufferSize) then Stops AssertFailed
    else if size =? 0 then Stops AssertFailed
    else if size <? 0 then Stops (MpiAbort MPI_ERR_COUNT)
    else Returns (tt, enqueue (HostId this) (task_Data task) size dest tag
                        (trace (if UseBSendForTasks this
                                then Call_Bsend (HostId this) dest tag size
                                else Call_Send (HostId this) dest tag size) w)).
Proof.
  intros Hm Hd size tag dest. unfold SendTask, bind, lift, Y_ASSERT, check.
  rewrite Hm, to_int_BufferSize. fold size.
  destruct (size <? BufferSize); cbn [negb]; [|reflexivity].
  destruct (size =? 0); cbn [negb]; [reflexivity|].
  rewrite GetTaskTag_small by assumption. fold tag dest.
  destruct (UseBSendForTasks this);
    unfold MPI_SAFE_CALL, MPI_Bsend, MPI_Send;
    destruct (size <? 0); reflexivity.
Qed.

Lemma SendTask_refused this task deviceId w :
  IsMaster this = true -> 0 <= DeviceId deviceId < INT_MAX ->
  task_Size task <= INT_MAX ->
  task_Size task = 0 \/ BufferSize <= task_Size task ->
  SendTask this task deviceId w = Stops AssertFailed.
Proof.
  intros Hm Hd Hmax Hsize.
  rewrite SendTask_outcome by assumption.
  rewrite to_int_small by (unfold task_Size, INT_MIN, INT_MAX in *; lia).
  unfold BufferSize in *. destruct Hsize as [H0|Hbig].
  - rewrite H0. reflexivity.
  - destruct (Z.ltb_spec (task_Size task) (32 * 1024 * 1024)); [lia|]. reflexivity.
Qed.

Lemma SendTask_accepted this task deviceId w :
  IsMaster this = true -> 0 <= DeviceId deviceId < INT_MAX ->
  0 < task_Size task < BufferSize ->
  exists w',
    SendTask this task deviceId w = Returns (tt, w') /\
    w_queue w' = w_queue w ++
      [mkMessage (HostId this) (HostIdOf deviceId) (DeviceId deviceId + 1)
         (task_bytes task)].
Proof.
  intros Hm Hd Hin. unfold BufferSize in Hin.
  rewrite SendTask_outcome by assumption.
  rewrite to_int_small by (unfold INT_MIN, INT_MAX; lia).
  unfold BufferSize.
  destruct (Z.ltb_spec (task_Size task) (32 * 1024 * 1024)); [|lia]. cbn [negb].
  destruct (Z.eqb_spec (task_Size task) 0); [lia|].
  destruct (Z.ltb_spec (task_Size task) 0); [lia|].
  eexists. split; [reflexivity|].
  unfold enqueue, task_Data, task_Size. cbn [set_queue w_queue trace].
  rewrite take_all. reflexivity.
Qed.

(** C2, amended: on the master, for a payload of at most [INT_MAX] bytes,
    [SendTask] stops in a usage error when the payload is empty or has
    [BufferSize] bytes or more, and otherwise hands the payload to the
    transport, in either send mode. *)
Theorem SendTask_size_limits this task deviceId w :
  IsMaster this = true -> 0 <= DeviceId deviceId < INT_MAX ->
  task_Size task <= INT_MAX ->
  (task_Size task = 0 \/ BufferSize <= task_Size task ->
   SendTask this task deviceId w = Stops AssertFailed) /\
  (0 < task_Size task < BufferSize ->
   exists w',
     SendTask this task deviceId w = Returns (tt, w') /\
     w_queue w' = w_queue w ++
       [mkMessage (HostId this) (HostIdOf deviceId) (DeviceId deviceId + 1)
          (task_bytes task)]).
Proof.
  intros Hm Hd Hmax. split.
  - apply SendTask_refused; assumption.
  - apply SendTask_accepted; assumption.
Qed.

Lemma SendTask_size_limits_witness :
  let this := mkManager 2 0 0 false in
  let task := mkTask [Byte.x01; Byte.x02; Byte.x03] in
  let deviceId := mkDeviceId 1 0 in
  let w := World0 zero_memory in
  exists w',
    SendTask this task deviceId w = Returns (tt, w') /\
    w_queue w' = [mkMessage 0 1 1 [Byte.x01; Byte.x02; Byte.x03]].
Proof.
  intros this task deviceId w.
  assert (Hm : IsMaster this = true) by reflexivity.
  assert (Hd : 0 <= DeviceId deviceId < INT_MAX)
    by (change (0 <= 0 < 2147483647); lia).
  assert (Hmax : task_Size task <= INT_MAX)
    by (change (3 <= 2147483647); lia).
  destruct (SendTask_size_limits this task deviceId w Hm Hd Hmax) as [_ Hok].
  apply Hok. change (0 < 3 < 32 * 1024 * 1024). lia.
Defined.

Lemma task_Size_repeat n :
  0 <= n -> task_Size (mkTask (repeat Byte.x00 (Z.to_nat n))) = n.
Proof.
  intros Hn. unfold task_Size. cbn [task_bytes].
  rewrite repeat_length. apply Z2Nat.id. assumption.
Qed.

(** C2 as stated fails: a payload of exactly [BufferSize] bytes is turned
    down by the first check on the size. *)
Lemma SendTask_at_BufferSize_stops :
  let task := mkTask (repeat Byte.x00 (Z.to_nat BufferSize)) in
  task_Size task = BufferSize /\
  SendTask (mkManager 2 0 0 false) task (mkDeviceId 1 0) (World0 zero_memory)
    = Stops AssertFailed.
Proof.
  intros task.
  assert (Hs : task_Size task = BufferSize).
  { apply task_Size_repeat. unfold BufferSize. lia. }
  split; [exact Hs|].
  apply SendTask_refused.
  - reflexivity.
  - cbn [DeviceId]. unfold INT_MAX. lia.
  - rewrite Hs. unfold BufferSize, INT_MAX. lia.
  - right. rewrite Hs. lia.
Qed.

(** One byte less is accepted. *)
Lemma SendTask_below_BufferSize_returns :
  let task := mkTask (repeat Byte.x00 (Z.to_nat (BufferSize - 1))) in
  exists w',
    SendTask (mkManager 2 0 0 false) task (mkDeviceId 1 0) (World0 zero_memory)
      = Returns (tt, w').
Proof.
  intros task.
  assert (Hs : task_Size task = BufferSize - 1).
  { apply task_Size_repeat. unfold BufferSize. lia. }
  destruct (SendTask_accepted (mkManager 2 0 0 false) task (mkDeviceId 1 0)
              (World0 zero_memory)) as (w' & Hret & _).
  - reflexivity.
  - cbn [DeviceId]. unfold INT_MAX. lia.
  - rewrite Hs. unfold BufferSize. lia.
  - exists w'. exact Hret.
Qed.

(** A size that wraps to a small positive [int] passes both checks: of a
    payload of 2^32 + 1 bytes one byte is sent. *)
Lemma SendTask_size_wraps task :
  task_Size task = 4294967297 ->
  exists w',
    SendTask (mkManager 2 0 0 false) task (mkDeviceId 1 0) (World0 zero_memory)
      = Returns (tt, w').
Proof.
  intros Hs. rewrite SendTask_outcome; [|reflexivity|cbn [DeviceId]; unfold INT_MAX; lia].
  rewrite Hs. change (to_int 4294967297) with 1. cbn. eauto.
Qed.

End Tasks.

(** ** Blocks *)

Section Blocks.

Implicit Types (l : list byte) (bs n : nat).

Lemma blocks_upto_stable bs : (0 < bs)%nat ->
  forall n m l, (length l <= n)%nat -> (length l <= m)%nat ->
  blocks_upto n bs l = blocks_upto m bs l.
Proof.
  intros Hbs. induction n as [|n IH]; intros m l Hn Hm.
  - destruct l; [|cbn in Hn; lia]. destruct m; reflexivity.
  - destruct m as [|m]; [destruct l; [reflexivity|cbn in Hm; lia]|].
    destruct l as [|x l]; [reflexivity|]. cbn [blocks_upto]. f_equal.
    assert (Hd : (length (drop bs (x :: l)) <= length l)%nat).
    { rewrite length_drop. cbn [length]. lia. }
    cbn [length] in Hn, Hm. apply IH; lia.
Qed.

Lemma blocks_nil bs : blocks bs [] = [].
Proof. reflexivity. Qed.

Lemma blocks_cons bs l :
  (0 < bs)%nat -> l <> [] -> blocks bs l = take bs l :: blocks bs (drop bs l).
Proof.
  intros Hbs Hl. unfold blocks. destruct l as [|x l]; [contradiction|].
  cbn [length blocks_upto]. f_equal.
  apply blocks_upto_stable; [assumption| |lia].
  rewrite length_drop. cbn [length]. lia.
Qed.

(** Induction along the blocks. *)
Lemma blocks_rect bs (Q : list byte -> list (list byte) -> Prop) :
  (0 < bs)%nat ->
  Q [] [] ->
  (forall l, l <> [] ->
     Q (drop bs l) (blocks bs (drop bs l)) ->
     Q l (take bs l :: blocks bs (drop bs l))) ->
  forall l, Q l (blocks bs l).
Proof.
  intros Hbs Hnil Hcons l.
  remember (length l) as n eqn:Hn.
  revert l Hn. induction n as [n IH] using lt_wf_ind. intros l Hn.
  destruct l as [|x l]; [exact Hnil|].
  rewrite blocks_cons by (assumption || discriminate).
  apply Hcons; [discriminate|].
  apply (IH (length (drop bs (x :: l)))); [|reflexivity].
  rewrite length_drop. subst n. cbn [length]. lia.
Qed.

Lemma concat_blocks bs l : (0 < bs)%nat -> concat (blocks bs l) = l.
Proof.
  intros Hbs. apply (blocks_rect bs (fun l B => concat B = l)); [assumption|reflexivity|].
  intros l' _ IH. cbn [concat]. rewrite IH. apply take_drop.
Qed.

Lemma blocks_bounded bs l :
  (0 < bs)%nat ->
  Forall (fun b => (0 < length b <= bs)%nat) (blocks bs l).
Proof.
  intros Hbs.
  apply (blocks_rect bs (fun l B => Forall (fun b => (0 < length b <= bs)%nat) B));
    [assumption|constructor|].
  intros l' Hl IH. constructor; [|exact IH].
  rewrite length_take. destruct l'; [contradiction|]. cbn [length]. lia.
Qed.

Lemma ceil_div_0 b : 0 < b -> ceil_div 0 b = 0.
Proof. intros Hb. unfold ceil_div. apply Z.div_small. lia. Qed.

Lemma ceil_div_step s b :
  0 < b -> 0 < s -> ceil_div s b = 1 + ceil_div (Z.max 0 (s - b)) b.
Proof.
  intros Hb Hs. unfold ceil_div.
  destruct (Z.le_gt_cases s b) as [Hle|Hgt].
  - rewrite Z.max_l by lia.
    replace (s + b - 1) with ((s - 1) + 1 * b) by lia.
    rewrite Z.div_add by lia. rewrite (Z.div_small (s - 1)) by lia.
    rewrite (Z.div_small (0 + b - 1)) by lia. reflexivity.
  - rewrite Z.max_r by lia.
    replace (s + b - 1) with ((s - b + b - 1) + 1 * b) by lia.
    rewrite Z.div_add by lia. lia.
Qed.

Lemma ceil_div_covers s b : 0 < b -> s <= ceil_div s b * b.
Proof.
  intros Hb. unfold ceil_div.
  pose proof (Z.mul_succ_div_gt (s + b - 1) b Hb). lia.
Qed.

Lemma ceil_div_below s b : 0 < b -> ceil_div s b * b <= s + b - 1.
Proof.
  intros Hb. unfold ceil_div.
  pose proof (Z.mul_div_le (s + b - 1) b Hb). lia.
Qed.

Lemma ceil_div_next s b k : 0 < b -> k * b < s -> (k + 1) * b <= ceil_div s b * b.
Proof.
  intros Hb Hk. unfold ceil_div.
  assert (k + 1 <= (s + b - 1) / b) by (apply Z.div_le_lower_bound; lia).
  nia.
Qed.

Lemma length_blocks bs l :
  (0 < bs)%nat ->
  Z.of_nat (length (blocks bs l)) = ceil_div (Z.of_nat (length l)) (Z.of_nat bs).
Proof.
  intros Hbs.
  apply (blocks_rect bs (fun l B =>
    Z.of_nat (length B) = ceil_div (Z.of_nat (length l)) (Z.of_nat bs)));
    [assumption| |].
  - cbn. symmetry. apply ceil_div_0. lia.
  - intros l' Hl IH. cbn [length]. rewrite Nat2Z.inj_succ, IH, length_drop.
    rewrite (ceil_div_step (Z.of_nat (length l'))).
    + replace (Z.of_nat (length l' - bs))
        with (Z.max 0 (Z.of_nat (length l') - Z.of_nat bs)) by lia.
      lia.
    + lia.
    + destruct l'; [contradiction|]. cbn [length]. lia.
Qed.

Lemma blocks_lookup bs l (i : nat) :
  (0 < bs)%nat -> (i < length (blocks bs l))%nat ->
  blocks bs l !! i = Some (take bs (drop (i * bs) l)).
Proof.
  intros Hbs. revert l. induction i as [|i IH]; intros l Hi.
  - destruct l as [|x l]; [cbn in Hi; lia|].
    rewrite blocks_cons by (assumption || discriminate). reflexivity.
  - destruct l as [|x l]; [cbn in Hi; lia|].
    rewrite blocks_cons in Hi |- * by (assumption || discriminate).
    cbn [length] in Hi. cbn [lookup list_lookup].
    change ((take bs (x :: l) :: blocks bs (drop bs (x :: l))) !! S i)
      with (blocks bs (drop bs (x :: l)) !! i).
    rewrite IH by lia. rewrite drop_drop. reflexivity.
Qed.

End Blocks.

(** ** The loops of the chunked send and receive *)

Section Loops.

Lemma take_length_take {A : Type} (n : nat) (l : list A) :
  take (length (take n l)) l = take n l.
Proof.
  rewrite length_take. destruct (Nat.le_gt_cases n (length l)) as [H|H].
  - rewrite Nat.min_l by assumption. reflexivity.
  - rewrite Nat.min_r by lia. rewrite !take_ge by lia. reflexivity.
Qed.

Lemma MPI_Isend_block rank buf n dest tag w :
  MPI_Isend rank buf (Z.of_nat (length (take n buf))) dest tag w =
    Returns ((MPI_SUCCESS, w_next w), after_Isend rank dest tag (take n buf) w).
Proof.
  unfold MPI_Isend, after_Isend, enqueue.
  destruct (Z.ltb_spec (Z.of_nat (length (take n buf))) 0) as [?|_]; [lia|].
  rewrite Nat2Z.id, take_length_take. reflexivity.
Qed.

Lemma WriteAsync4_block this buf n dest tag w :
  WriteAsync4 this buf (Z.of_nat (length (take n buf))) dest tag w =
    Returns (TMpiRequest_of (w_next w), after_Isend (HostId this) dest tag (take n buf) w).
Proof.
  unfold WriteAsync4, bind, MPI_SAFE_CALL. rewrite MPI_Isend_block. reflexivity.
Qed.

Lemma ReadAsync4_posted this buf count source tag w :
  0 <= count ->
  ReadAsync4 this buf count source tag w =
    Returns (TMpiRequest_of (w_next w), after_Irecv (HostId this) source tag buf count w).
Proof.
  intros Hc. unfold ReadAsync4, bind, MPI_SAFE_CALL, MPI_Irecv.
  destruct (Z.ltb_spec count 0) as [?|_]; [lia|]. reflexivity.
Qed.

Lemma w_next_after_Isend rank dest tag b w :
  w_next (after_Isend rank dest tag b w) = w_next w + 1.
Proof. reflexivity. Qed.

Lemma w_next_after_Irecv rank source tag buf count w :
  w_next (after_Irecv rank source tag buf count w) = w_next w + 1.
Proof. reflexivity. Qed.

(** The [size] computed in the body of the loops is the length of the block
    that starts at [offset]. *)
Lemma loop_size (data : list byte) dataSize blockSize offset :
  block_bounds data dataSize blockSize ->
  0 <= offset < dataSize ->
  to_int (Z.min blockSize (to_ui64 (dataSize - offset)))
    = Z.of_nat (length (take (Z.to_nat blockSize) (drop (Z.to_nat offset) data))) /\
  to_ui64 (offset + blockSize) = offset + blockSize /\
  drop (Z.to_nat offset) data <> [].
Proof.
  unfold block_bounds, INT_MAX. intros (Hlen & Hbs & Hmax) Ho.
  rewrite to_ui64_small by lia.
  rewrite to_int_small by (unfold INT_MIN, INT_MAX; lia).
  rewrite to_ui64_small by lia.
  rewrite length_take, length_drop. split; [lia|]. split; [reflexivity|].
  intros Hnil. apply (f_equal length) in Hnil.
  rewrite length_drop in Hnil. cbn in Hnil. lia.
Qed.

Lemma next_blocks (data : list byte) blockSize offset :
  0 < blockSize -> 0 <= offset ->
  drop (Z.to_nat blockSize) (drop (Z.to_nat offset) data)
    = drop (Z.to_nat (offset + blockSize)) data.
Proof.
  intros Hbs Ho. rewrite drop_drop, Z2Nat.inj_add by lia. reflexivity.
Qed.

Lemma blocks_past_end (data : list byte) dataSize blockSize offset :
  dataSize = Z.of_nat (length data) -> dataSize <= offset ->
  blocks (Z.to_nat blockSize) (drop (Z.to_nat offset) data) = [].
Proof.
  intros Hlen Ho. rewrite drop_ge by lia. reflexivity.
Qed.

Lemma WriteAsync_loop_blocks this data dataSize blockSize destRank tag :
  block_bounds data dataSize blockSize ->
  forall fuel offset requests w,
    0 <= offset ->
    let B := blocks (Z.to_nat blockSize) (drop (Z.to_nat offset) data) in
    (length B <= fuel)%nat ->
    WriteAsync_loop fuel this data dataSize blockSize destRank tag offset requests w
      = Returns (requests ++ pending_requests (w_next w) (length B),
                 after_sends (HostId this) destRank tag B w).
Proof.
  intros Hb. pose proof Hb as (Hlen & Hbs & Hmax).
  induction fuel as [|fuel IH]; intros offset requests w Ho B HB;
    cbn [WriteAsync_loop];
    destruct (Z.ltb_spec offset dataSize) as [Hlt|Hge].
  - destruct (loop_size _ _ _ offset Hb) as (_ & _ & Hne); [lia|].
    subst B. rewrite blocks_cons in HB by (assumption || lia). cbn in HB. lia.
  - subst B. rewrite (blocks_past_end data dataSize) by assumption.
    cbn. rewrite app_nil_r. reflexivity.
  - destruct (loop_size _ _ _ offset Hb) as (Hsize & Hnext & Hne); [lia|].
    rewrite Hsize, Hnext. unfold bind at 1. rewrite WriteAsync4_block.
    subst B. rewrite blocks_cons in HB |- * by (assumption || lia).
    rewrite next_blocks in HB |- * by lia. cbn [length] in HB.
    rewrite IH by lia.
    rewrite w_next_after_Isend, <- app_assoc. reflexivity.
  - subst B. rewrite (blocks_past_end data dataSize) by assumption.
    cbn. rewrite app_nil_r. reflexivity.
Qed.

Lemma ReadAsync_loop_blocks this data dst dataSize blockSize sourceRank tag :
  block_bounds data dataSize blockSize ->
  forall fuel offset requests w,
    0 <= offset ->
    let B := blocks (Z.to_nat blockSize) (drop (Z.to_nat offset) data) in
    (length B <= fuel)%nat ->
    ReadAsync_loop fuel this dst dataSize blockSize sourceRank tag offset requests w
      = Returns (requests ++ pending_requests (w_next w) (length B),
                 after_recvs (HostId this) sourceRank tag blockSize (dst + offset) B w).
Proof.
  intros Hb. pose proof Hb as (Hlen & Hbs & Hmax).
  induction fuel as [|fuel IH]; intros offset requests w Ho B HB;
    cbn [ReadAsync_loop];
    destruct (Z.ltb_spec offset dataSize) as [Hlt|Hge].
  - destruct (loop_size _ _ _ offset Hb) as (_ & _ & Hne); [lia|].
    subst B. rewrite blocks_cons in HB by (assumption || lia). cbn in HB. lia.
  - subst B. rewrite (blocks_past_end data dataSize) by assumption.
    cbn. rewrite app_nil_r. reflexivity.
  - destruct (loop_size _ _ _ offset Hb) as (Hsize & Hnext & Hne); [lia|].
    rewrite Hsize, Hnext. unfold bind at 1. rewrite ReadAsync4_posted by lia.
    subst B. rewrite blocks_cons in HB |- * by (assumption || lia).
    rewrite next_blocks in HB |- * by lia. cbn [length] in HB.
    rewrite IH by lia.
    rewrite w_next_after_Irecv, <- app_assoc.
    replace (dst + (offset + blockSize)) with (dst + offset + blockSize) by lia.
    reflexivity.
  - subst B. rewrite (blocks_past_end data dataSize) by assumption.
    cbn. rewrite app_nil_r. reflexivity.
Qed.

(** The same for the send under [send_bounds], where the block size may be
    beyond [INT_MAX]: block [k] starts at offset [k * blockSize]. *)
Lemma loop_size_send (data : list byte) dataSize blockSize (k : nat) :
  send_bounds data dataSize blockSize ->
  Z.of_nat k * blockSize < dataSize ->
  to_int (Z.min blockSize (to_ui64 (dataSize - Z.of_nat k * blockSize)))
    = Z.of_nat (length (take (Z.to_nat blockSize)
                          (drop (Z.to_nat (Z.of_nat k * blockSize)) data))) /\
  to_ui64 (Z.of_nat k * blockSize + blockSize) = Z.of_nat (S k) * blockSize /\
  drop (Z.to_nat (Z.of_nat k * blockSize)) data <> [].
Proof.
  unfold send_bounds, INT_MAX. intros (Hlen & Hbs & Hint & Hwrap) Hk.
  pose proof (ceil_div_covers dataSize blockSize Hbs) as Hcov.
  pose proof (ceil_div_next dataSize blockSize (Z.of_nat k) Hbs Hk) as Hnext.
  assert (Ho : 0 <= Z.of_nat k * blockSize) by nia.
  replace (Z.of_nat (S k) * blockSize) with (Z.of_nat k * blockSize + blockSize) by lia.
  replace ((Z.of_nat k + 1) * blockSize) with (Z.of_nat k * blockSize + blockSize)
    in Hnext by lia.
  generalize dependent (Z.of_nat k * blockSize). intros offset Hk Hnext Ho.
  generalize dependent (ceil_div dataSize blockSize * blockSize). intros top Hwrap Hcov Hnext.
  rewrite to_ui64_small by lia.
  rewrite to_int_small by (unfold INT_MIN, INT_MAX; lia).
  rewrite to_ui64_small by lia.
  rewrite length_take, length_drop. split; [lia|]. split; [reflexivity|].
  intros Hnil. apply (f_equal length) in Hnil.
  rewrite length_drop in Hnil. cbn in Hnil. lia.
Qed.

Lemma WriteAsync_loop_send this data dataSize blockSize destRank tag :
  send_bounds data dataSize blockSize ->
  forall fuel (k : nat) requests w,
    let offset := Z.of_nat k * blockSize in
    let B := blocks (Z.to_nat blockSize) (drop (Z.to_nat offset) data) in
    (length B <= fuel)%nat ->
    WriteAsync_loop fuel this data dataSize blockSize destRank tag offset requests w
      = Returns (requests ++ pending_requests (w_next w) (length B),
                 after_sends (HostId this) destRank tag B w).
Proof.
  intros Hb. pose proof Hb as (Hlen & Hbs & Hint & Hwrap).
  induction fuel as [|fuel IH]; intros k requests w offset B HB;
    cbn [WriteAsync_loop];
    destruct (Z.ltb_spec offset dataSize) as [Hlt|Hge].
  - destruct (loop_size_send _ _ _ k Hb Hlt) as (_ & _ & Hne).
    subst B. rewrite blocks_cons in HB by (assumption || lia). cbn in HB. lia.
  - subst B. rewrite (blocks_past_end data dataSize) by assumption.
    cbn. rewrite app_nil_r. reflexivity.
  - destruct (loop_size_send _ _ _ k Hb Hlt) as (Hsize & Hnext & Hne).
    fold offset in Hsize, Hnext, Hne.
    assert (Ho : 0 <= offset) by (subst offset; nia).
    assert (Hsk : offset + blockSize = Z.of_nat (S k) * blockSize)
      by (unfold offset; lia).
    rewrite Hsize, Hnext. unfold bind at 1. rewrite WriteAsync4_block.
    subst B. rewrite blocks_cons in HB |- * by (assumption || lia).
    rewrite next_blocks in HB |- * by lia. cbn [length] in HB.
    rewrite Hsk in HB |- *.
    rewrite (IH (S k)) by lia.
    rewrite w_next_after_Isend, <- app_assoc. reflexivity.
  - subst B. rewrite (blocks_past_end data dataSize) by assumption.
    cbn. rewrite app_nil_r. reflexivity.
Qed.

(** Two ways to meet [send_bounds]: a block size that fits an [int], and
    a payload that fits an [int] whatever the block size. *)
Lemma send_bounds_small_blocks (data : list byte) dataSize blockSize :
  dataSize = Z.of_nat (length data) ->
  0 < blockSize <= INT_MAX ->
  dataSize <= 18446744071562067968 ->
  send_bounds data dataSize blockSize.
Proof.
  unfold send_bounds, INT_MAX. intros Hlen Hbs Hs.
  pose proof (ceil_div_below dataSize blockSize) as Hbelow.
  repeat split; lia.
Qed.

Lemma send_bounds_small_payload (data : list byte) dataSize blockSize :
  dataSize = Z.of_nat (length data) ->
  0 < blockSize < 18446744073709551616 ->
  dataSize <= INT_MAX ->
  send_bounds data dataSize blockSize.
Proof.
  unfold send_bounds, INT_MAX. intros Hlen Hbs Hs.
  pose proof (ceil_div_below dataSize blockSize) as Hbelow.
  repeat split; try lia.
  destruct (Z.le_gt_cases blockSize 2147483647) as [Hle|Hgt]; [lia|].
  assert (Hn : ceil_div dataSize blockSize <= 1) by nia.
  assert (Hn0 : 0 <= ceil_div dataSize blockSize).
  { unfold ceil_div. apply Z.div_pos; lia. }
  nia.
Qed.

(** The default block size of the five-argument overloads. *)
Lemma default_block_size dataSize :
  0 <= dataSize ->
  to_ui64 (to_int (Z.min dataSize (to_ui64 (Z.shiftl 1 30))))
    = Z.min dataSize 1073741824.
Proof.
  intros Hs. change (to_ui64 (Z.shiftl 1 30)) with 1073741824.
  rewrite to_int_small by (unfold INT_MIN, INT_MAX; lia).
  apply to_ui64_small. lia.
Qed.

End Loops.

(** ** Memory *)

Section Memory.

Implicit Types (mem : Z -> byte) (b l : list byte).

Lemma length_load_bytes mem addr n : length (load_bytes mem addr n) = n.
Proof. unfold load_bytes. rewrite length_map, length_seq. reflexivity. Qed.

Lemma load_bytes_lookup mem addr n (i : nat) :
  (i < n)%nat -> load_bytes mem addr n !! i = Some (mem (addr + Z.of_nat i)).
Proof.
  intros Hi. unfold load_bytes.
  change (map ?f ?l) with (f <$> l).
  rewrite list_lookup_fmap, lookup_seq_lt by assumption. reflexivity.
Qed.

Lemma load_bytes_ext mem1 mem2 addr n :
  (forall a, addr <= a < addr + Z.of_nat n -> mem1 a = mem2 a) ->
  load_bytes mem1 addr n = load_bytes mem2 addr n.
Proof.
  intros Hext. unfold load_bytes. apply map_ext_in.
  intros i Hi. apply in_seq in Hi. apply Hext. lia.
Qed.

Lemma load_bytes_app mem addr n m :
  load_bytes mem addr (n + m) =
    load_bytes mem addr n ++ load_bytes mem (addr + Z.of_nat n) m.
Proof.
  apply list_eq. intros i.
  destruct (Nat.lt_ge_cases i n) as [Hlt|Hge].
  - rewrite lookup_app_l by (rewrite length_load_bytes; assumption).
    rewrite !load_bytes_lookup by lia. reflexivity.
  - rewrite lookup_app_r by (rewrite length_load_bytes; assumption).
    rewrite length_load_bytes.
    destruct (Nat.lt_ge_cases i (n + m)) as [Hin|Hout].
    + rewrite !load_bytes_lookup by lia. do 2 f_equal. lia.
    + rewrite !(proj2 (lookup_ge_None _ _)) by (rewrite length_load_bytes; lia).
      reflexivity.
Qed.

Lemma store_bytes_outside mem addr b a :
  a < addr \/ addr + Z.of_nat (length b) <= a -> store_bytes mem addr b a = mem a.
Proof.
  intros Ha. unfold store_bytes.
  destruct (Z.leb_spec addr a); destruct (Z.ltb_spec a (addr + Z.of_nat (length b)));
    cbn [andb]; try reflexivity. lia.
Qed.

Lemma load_store_bytes mem addr b :
  load_bytes (store_bytes mem addr b) addr (length b) = b.
Proof.
  apply list_eq. intros i.
  destruct (Nat.lt_ge_cases i (length b)) as [Hlt|Hge].
  - rewrite load_bytes_lookup by assumption. unfold store_bytes.
    destruct (Z.leb_spec addr (addr + Z.of_nat i)); [|lia].
    destruct (Z.ltb_spec (addr + Z.of_nat i) (addr + Z.of_nat (length b))); [|lia].
    cbn [andb]. replace (addr + Z.of_nat i - addr) with (Z.of_nat i) by lia.
    rewrite Nat2Z.id.
    destruct (proj2 (lookup_lt_is_Some b i) Hlt) as [x Hx].
    rewrite Hx. f_equal. apply nth_lookup_Some. assumption.
  - rewrite !(proj2 (lookup_ge_None _ _)); [reflexivity|lia|].
    rewrite length_load_bytes. assumption.
Qed.

Lemma store_blocks_below mem bs addr B a :
  0 <= bs -> a < addr -> store_blocks mem bs addr B a = mem a.
Proof.
  intros Hbs. revert mem addr. induction B as [|b B IH]; intros mem addr Ha.
  - reflexivity.
  - cbn [store_blocks]. rewrite IH by lia.
    apply store_bytes_outside. left. assumption.
Qed.

(** Storing the blocks of [l] one block size apart lays [l] out again. *)
Lemma load_store_blocks (bs : nat) l :
  (0 < bs)%nat ->
  forall mem addr,
    load_bytes (store_blocks mem (Z.of_nat bs) addr (blocks bs l)) addr (length l) = l.
Proof.
  intros Hbs.
  apply (blocks_rect bs (fun l B => forall mem addr,
    load_bytes (store_blocks mem (Z.of_nat bs) addr B) addr (length l) = l));
    [assumption|reflexivity|].
  intros l' Hl IH mem addr. cbn [store_blocks].
  assert (Hlen : length l' = (length (take bs l') + length (drop bs l'))%nat).
  { rewrite <- length_app, take_drop. reflexivity. }
  rewrite Hlen, load_bytes_app.
  transitivity (take bs l' ++ drop bs l'); [|apply take_drop]. f_equal.
  - rewrite (load_bytes_ext _ (store_bytes mem addr (take bs l'))).
    + apply load_store_bytes.
    + intros a Ha. apply store_blocks_below; [lia|].
      rewrite length_take in Ha. lia.
  - destruct (Nat.le_gt_cases (length l') bs) as [Hshort|Hlong].
    + rewrite drop_ge by assumption. reflexivity.
    + rewrite length_take, Nat.min_l by lia. apply IH.
Qed.

End Memory.

(** ** Progress on aligned worlds *)

Section Progress.

Lemma match_posted_aligned P Ms :
  Forall2 fits P Ms ->
  forall w, w_queue w = Ms ->
  match_posted P w = (MPI_SUCCESS, [], deliveries P Ms w).
Proof.
  induction 1 as [|p m P Ms [Hmatch Hlen] _ IH]; intros w Hq.
  - reflexivity.
  - cbn [match_posted deliveries]. rewrite Hq. cbn [take_first]. rewrite Hmatch.
    destruct (Z.ltb_spec (rcv_count p) (Z.of_nat (length (msg_bytes m)))); [lia|].
    apply IH. reflexivity.
Qed.

Lemma progress_aligned w : aligned w -> progress w = (MPI_SUCCESS, settle w).
Proof.
  intros Ha. unfold progress, settle.
  rewrite (match_posted_aligned _ _ Ha) by reflexivity. reflexivity.
Qed.

Lemma deliveries_trace c P : forall Ms w,
  deliveries P Ms (trace c w) = trace c (deliveries P Ms w).
Proof.
  induction P as [|p P IH]; intros [|m Ms] w; try reflexivity.
  cbn [deliveries]. rewrite <- IH. reflexivity.
Qed.

Lemma settle_trace c w : settle (trace c w) = trace c (settle w).
Proof.
  unfold settle. cbn [trace w_posted w_queue]. fold (trace c w).
  rewrite deliveries_trace. reflexivity.
Qed.

Lemma deliveries_fixed P : forall Ms w,
  w_next (deliveries P Ms w) = w_next w /\
  w_log (deliveries P Ms w) = w_log w /\
  w_posted (deliveries P Ms w) = w_posted w.
Proof.
  induction P as [|p P IH]; intros [|m Ms] w; try (repeat split; reflexivity).
  cbn [deliveries]. destruct (IH Ms (deliver p m Ms w)) as (H1 & H2 & H3).
  rewrite H1, H2, H3. repeat split; reflexivity.
Qed.

Lemma deliveries_queue P Ms :
  Forall2 fits P Ms ->
  forall w, w_queue w = Ms -> w_queue (deliveries P Ms w) = [].
Proof.
  induction 1 as [|p m P Ms _ _ IH]; intros w Hq.
  - exact Hq.
  - cbn [deliveries]. apply IH. reflexivity.
Qed.

Lemma settle_idle w : aligned w -> idle (settle w).
Proof.
  intros Ha. split; [|reflexivity].
  unfold settle. cbn [set_posted w_queue].
  apply (deliveries_queue _ _ Ha). reflexivity.
Qed.

Lemma settle_when_idle w : idle w -> settle w = w.
Proof.
  intros [Hq Hp]. unfold settle. rewrite Hp. cbn [deliveries].
  destruct w; cbn in *. subst. reflexivity.
Qed.

Lemma idle_aligned w : idle w -> aligned w.
Proof. intros [Hq Hp]. unfold aligned. rewrite Hq, Hp. constructor. Qed.

Lemma idle_trace c w : idle w -> idle (trace c w).
Proof. intros [Hq Hp]. split; assumption. Qed.

Lemma traces_fixed cs : forall w,
  w_queue (traces cs w) = w_queue w /\
  w_posted (traces cs w) = w_posted w /\
  w_done (traces cs w) = w_done w /\
  w_mem (traces cs w) = w_mem w /\
  w_next (traces cs w) = w_next w /\
  w_log (traces cs w) = w_log w ++ cs.
Proof.
  induction cs as [|c cs IH]; intros w.
  - cbn. rewrite app_nil_r. repeat split; reflexivity.
  - cbn [traces fold_left]. fold (traces cs (trace c w)).
    destruct (IH (trace c w)) as (H1 & H2 & H3 & H4 & H5 & H6).
    rewrite H1, H2, H3, H4, H5, H6. cbn [trace w_log].
    rewrite <- app_assoc. repeat split; reflexivity.
Qed.

Lemma idle_traces cs w : idle w -> idle (traces cs w).
Proof.
  intros [Hq Hp]. destruct (traces_fixed cs w) as (H1 & H2 & _).
  split; congruence.
Qed.

(** *** Waiting *)

Lemma MPI_Wait_aligned request n w :
  aligned w -> w_done (settle w) !! request = Some n ->
  MPI_Wait request w =
    Returns ((MPI_SUCCESS, mkStatus n), trace (Call_Wait request) (settle w)).
Proof.
  intros Ha Hd. unfold MPI_Wait.
  rewrite progress_aligned by exact Ha. rewrite settle_trace.
  cbn [negb Z.eqb MPI_SUCCESS trace w_done]. rewrite Hd. reflexivity.
Qed.

Lemma WaitComplete_aligned request w :
  aligned w -> is_Some (w_done (settle w) !! request) ->
  WaitComplete (TMpiRequest_of request) w =
    Returns (completed (settle w) request, trace (Call_Wait request) (settle w)).
Proof.
  intros Ha [n Hd]. unfold WaitComplete, bind, lift, CB_ENSURE, check, defined.
  cbn [TMpiRequest_of Flag Request Z.eqb negb].
  unfold MPI_SAFE_CALL. rewrite (MPI_Wait_aligned request n) by assumption.
  unfold completed. rewrite Hd. reflexivity.
Qed.

Lemma WaitAll_idle requests : forall w,
  idle w ->
  (forall request, request ∈ requests -> is_Some (w_done w !! request)) ->
  WaitAll (map TMpiRequest_of requests) w =
    Returns (map (completed w) requests, traces (map Call_Wait requests) w).
Proof.
  induction requests as [|request requests IH]; intros w Hi Hd.
  - reflexivity.
  - cbn [map WaitAll]. unfold bind at 1.
    rewrite WaitComplete_aligned;
      [|apply idle_aligned; assumption
       |rewrite settle_when_idle by assumption; apply Hd; left].
    rewrite settle_when_idle by assumption.
    unfold bind at 1. rewrite IH.
    + reflexivity.
    + apply idle_trace, Hi.
    + intros r Hr. apply Hd. right. assumption.
Qed.

Lemma WaitAll_aligned requests w :
  aligned w -> requests <> [] ->
  (forall request, request ∈ requests -> is_Some (w_done (settle w) !! request)) ->
  WaitAll (map TMpiRequest_of requests) w =
    Returns (map (completed (settle w)) requests,
             traces (map Call_Wait requests) (settle w)).
Proof.
  intros Ha Hne Hd. destruct requests as [|request requests]; [contradiction|].
  cbn [map WaitAll]. unfold bind at 1.
  rewrite WaitComplete_aligned; [|assumption|apply Hd; left].
  unfold bind at 1. rewrite WaitAll_idle.
  - reflexivity.
  - apply idle_trace, settle_idle, Ha.
  - intros r Hr. apply Hd. right. assumption.
Qed.

Lemma completed_is_complete w request : state_of (completed w request) = Complete.
Proof. reflexivity. Qed.

End Progress.

(** ** Worlds after a row of sends and of posted receives *)

Section Rows.

Implicit Types (B : list (list byte)) (w : World).

Lemma after_sends_fixed rank dest tag B : forall w,
  let w' := after_sends rank dest tag B w in
  w_queue w' = w_queue w ++ map (mkMessage rank dest tag) B /\
  w_posted w' = w_posted w /\
  w_mem w' = w_mem w /\
  w_next w' = w_next w + Z.of_nat (length B) /\
  w_log w' = w_log w ++
    map (fun b => Call_Isend rank dest tag (Z.of_nat (length b))) B.
Proof.
  induction B as [|b B IH]; intros w; cbv zeta.
  - cbn. rewrite !app_nil_r. repeat split; lia.
  - change (after_sends rank dest tag (b :: B) w)
      with (after_sends rank dest tag B (after_Isend rank dest tag b w)).
    destruct (IH (after_Isend rank dest tag b w)) as (H1 & H2 & H3 & H4 & H5).
    rewrite H1, H2, H3, H4, H5.
    cbn [after_Isend trace set_next set_done set_queue
         w_queue w_posted w_mem w_next w_log map length].
    rewrite <- !app_assoc. repeat split; try reflexivity. lia.
Qed.

Lemma after_recvs_fixed rank source tag bs B : forall buf w,
  let w' := after_recvs rank source tag bs buf B w in
  w_queue w' = w_queue w /\
  w_posted w' = w_posted w ++ receives rank source tag bs buf (w_next w) B /\
  w_mem w' = w_mem w /\
  w_next w' = w_next w + Z.of_nat (length B).
Proof.
  induction B as [|b B IH]; intros buf w; cbv zeta.
  - cbn. rewrite app_nil_r. repeat split; lia.
  - cbn [after_recvs].
    destruct (IH (buf + bs) (after_Irecv rank source tag buf (Z.of_nat (length b)) w))
      as (H1 & H2 & H3 & H4).
    rewrite H1, H2, H3, H4.
    cbn [after_Irecv trace set_next set_done set_posted
         w_queue w_posted w_mem w_next receives length].
    rewrite <- !app_assoc. repeat split; try reflexivity. lia.
Qed.

Lemma handles_range k : forall request r,
  r ∈ handles request k -> request <= r < request + Z.of_nat k.
Proof.
  induction k as [|k IH]; intros request r Hr.
  - cbn in Hr. apply elem_of_nil in Hr. contradiction.
  - cbn [handles] in Hr. apply elem_of_cons in Hr as [->|Hr]; [lia|].
    apply IH in Hr. lia.
Qed.

Lemma handles_nonempty request k : (0 < k)%nat -> handles request k <> [].
Proof. destruct k; [lia|discriminate]. Qed.

Lemma length_handles k : forall request, length (handles request k) = k.
Proof. induction k as [|k IH]; intros request; cbn; [|rewrite IH]; reflexivity. Qed.

(** *** Which requests are complete *)

Lemma after_Isend_keeps rank dest tag b w r :
  is_Some (w_done w !! r) -> is_Some (w_done (after_Isend rank dest tag b w) !! r).
Proof.
  intros Hr. cbn [after_Isend trace set_next set_done set_queue w_done w_next].
  apply lookup_insert_is_Some.
  destruct (Z.eq_dec (w_next w) r); [left|right]; auto.
Qed.

Lemma after_sends_keeps rank dest tag B : forall w r,
  is_Some (w_done w !! r) -> is_Some (w_done (after_sends rank dest tag B w) !! r).
Proof.
  induction B as [|b B IH]; intros w r Hr; [exact Hr|].
  cbn [after_sends fold_left]. apply IH, after_Isend_keeps, Hr.
Qed.

Lemma after_sends_done rank dest tag B : forall w r,
  r ∈ handles (w_next w) (length B) ->
  is_Some (w_done (after_sends rank dest tag B w) !! r).
Proof.
  induction B as [|b B IH]; intros w r Hr.
  - cbn in Hr. apply elem_of_nil in Hr. contradiction.
  - cbn [length handles] in Hr. cbn [after_sends fold_left].
    apply elem_of_cons in Hr as [->|Hr].
    + apply after_sends_keeps.
      cbn [after_Isend trace set_next set_done set_queue w_done w_next].
      rewrite lookup_insert_eq. eauto.
    + apply IH. exact Hr.
Qed.

Lemma after_recvs_done rank source tag bs B : forall buf w r,
  r < w_next w ->
  w_done (after_recvs rank source tag bs buf B w) !! r = w_done w !! r.
Proof.
  induction B as [|b B IH]; intros buf w r Hr; [reflexivity|].
  cbn [after_recvs]. rewrite IH by (rewrite w_next_after_Irecv; lia).
  cbn [after_Irecv trace set_next set_done set_posted w_done w_next].
  apply lookup_delete_ne. lia.
Qed.

Lemma deliveries_keeps P : forall Ms w r,
  is_Some (w_done w !! r) -> is_Some (w_done (deliveries P Ms w) !! r).
Proof.
  induction P as [|p P IH]; intros [|m Ms] w r Hr; try exact Hr.
  cbn [deliveries]. apply IH.
  cbn [deliver set_mem set_done set_queue w_done].
  apply lookup_insert_is_Some.
  destruct (Z.eq_dec (rcv_req p) r); [left|right]; auto.
Qed.

Lemma deliveries_done rank source tag bs B : forall buf request w r,
  r ∈ handles request (length B) ->
  is_Some (w_done (deliveries (receives rank source tag bs buf request B)
                     (map (mkMessage source rank tag) B) w) !! r).
Proof.
  induction B as [|b B IH]; intros buf request w r Hr.
  - cbn in Hr. apply elem_of_nil in Hr. contradiction.
  - cbn [length handles] in Hr. cbn [receives map deliveries].
    apply elem_of_cons in Hr as [->|Hr].
    + apply deliveries_keeps.
      cbn [deliver set_mem set_done set_queue w_done rcv_req].
      rewrite lookup_insert_eq. eauto.
    + apply IH. exact Hr.
Qed.

(** *** The receives of a chunked receive against the sends of a chunked send *)

Lemma receives_fit rank source tag bs B : forall buf request,
  Forall2 fits (receives rank source tag bs buf request B)
               (map (mkMessage source rank tag) B).
Proof.
  induction B as [|b B IH]; intros buf request; cbn [receives map]; constructor.
  - split; [|cbn; lia]. unfold matches. cbn. rewrite !Z.eqb_refl. reflexivity.
  - apply IH.
Qed.

Lemma deliveries_memory rank source tag bs B : forall buf request w,
  w_mem (deliveries (receives rank source tag bs buf request B)
           (map (mkMessage source rank tag) B) w) rank
    = store_blocks (w_mem w rank) bs buf B.
Proof.
  induction B as [|b B IH]; intros buf request w; [reflexivity|].
  cbn [receives map deliveries store_blocks]. rewrite IH.
  cbn [deliver set_mem set_done set_queue w_mem rcv_rank rcv_buf msg_bytes].
  unfold store_at. rewrite Z.eqb_refl. reflexivity.
Qed.

End Rows.

(** ** The chunked transport *)

Section ChunkedTransport.

Lemma WriteAsync6_blocks fuel this (data : list byte) dataSize blockSize destRank tag
    requests w :
  block_bounds data dataSize blockSize ->
  let B := blocks (Z.to_nat blockSize) data in
  (length B <= fuel)%nat ->
  WriteAsync6 fuel this data dataSize blockSize destRank tag requests w
    = Returns (requests ++ pending_requests (w_next w) (length B),
               after_sends (HostId this) destRank tag B w).
Proof.
  intros Hb B HB. unfold WriteAsync6.
  apply (WriteAsync_loop_blocks this data dataSize blockSize destRank tag Hb
           fuel 0 requests w); [lia|exact HB].
Qed.

Lemma ReadAsync6_blocks fuel this (data : list byte) dst dataSize blockSize sourceRank tag
    requests w :
  block_bounds data dataSize blockSize ->
  let B := blocks (Z.to_nat blockSize) data in
  (length B <= fuel)%nat ->
  ReadAsync6 fuel this dst dataSize blockSize sourceRank tag requests w
    = Returns (requests ++ pending_requests (w_next w) (length B),
               after_recvs (HostId this) sourceRank tag blockSize dst B w).
Proof.
  intros Hb B HB. unfold ReadAsync6.
  rewrite (ReadAsync_loop_blocks this data dst dataSize blockSize sourceRank tag Hb
             fuel 0 requests w); [|lia|exact HB].
  rewrite Z.add_0_r. reflexivity.
Qed.

Lemma blocks_count (data : list byte) dataSize blockSize :
  block_bounds data dataSize blockSize ->
  Z.of_nat (length (blocks (Z.to_nat blockSize) data)) = ceil_div dataSize blockSize.
Proof.
  intros (Hlen & Hbs & _). rewrite length_blocks by lia.
  rewrite Z2Nat.id by lia. rewrite Hlen. reflexivity.
Qed.

Lemma pending_requests_pending request k :
  Forall (fun r => state_of r = Pending) (pending_requests request k).
Proof.
  unfold pending_requests. apply Forall_fmap, Forall_true.
  intros h. reflexivity.
Qed.

Lemma WriteAsync6_send_blocks fuel this (data : list byte) dataSize blockSize
    destRank tag requests w :
  send_bounds data dataSize blockSize ->
  let B := blocks (Z.to_nat blockSize) data in
  (length B <= fuel)%nat ->
  WriteAsync6 fuel this data dataSize blockSize destRank tag requests w
    = Returns (requests ++ pending_requests (w_next w) (length B),
               after_sends (HostId this) destRank tag B w).
Proof.
  intros Hb B HB. unfold WriteAsync6.
  apply (WriteAsync_loop_send this data dataSize blockSize destRank tag Hb
           fuel 0%nat requests w). exact HB.
Qed.

(** Beyond the bound on the blocks: with a payload and a block size of 2^31
    bytes the count of the one block reaches [MPI_Isend] as [INT_MIN], and
    the call stops there. *)
Lemma WriteAsync6_block_size_beyond_int :
  let data := repeat Byte.x00 (Z.to_nat 2147483648) in
  ceil_div 2147483648 2147483648 = 1 /\
  forall fuel,
    WriteAsync6 (S fuel) (mkManager 2 0 0 false) data 2147483648 2147483648 1 1023 []
      (World0 zero_memory)
    = Stops (MpiAbort MPI_ERR_COUNT).
Proof.
  intros data. split; [reflexivity|]. intros fuel.
  generalize data. clear data. intros data.
  unfold WriteAsync6. cbn [WriteAsync_loop].
  change (0 <? 2147483648) with true. cbv iota.
  change (to_int (Z.min 2147483648 (to_ui64 (2147483648 - 0)))) with (-2147483648).
  unfold bind, WriteAsync4, MPI_SAFE_CALL, MPI_Isend.
  reflexivity.
Qed.

(** C4: the chunked send of a payload of [s] bytes at block size
    [block_size >= 1], with enough fuel for [ceil (s / block_size)]
    iterations, returns, appends one pending request per block, handles in a
    row, and hands the transport one message per block, in order, all with
    the tag and destination of the call; block [i] is the [block_size]
    bytes from offset [i * block_size] on, fewer at the end.  The
    five-argument overload is the six-argument one at block size
    [min (s, 2^30)].  The hypotheses are those of a transport whose single
    message is capped: the largest block, [min (block_size, s)], fits the
    [int] count of one message (every block size up to the cap of 2^30
    does, and so does any block size when the payload itself fits), and the
    [ui64] offset after the last block does not wrap. *)
Theorem WriteAsync_sends_one_block_per_request fuel this (data : list byte)
    dataSize blockSize destRank tag requests w :
  send_bounds data dataSize blockSize ->
  (Z.to_nat (ceil_div dataSize blockSize) <= fuel)%nat ->
  let bs := Z.to_nat blockSize in
  let B := blocks bs data in
  exists w',
    WriteAsync6 fuel this data dataSize blockSize destRank tag requests w
      = Returns (requests ++ pending_requests (w_next w) (length B), w') /\
    Z.of_nat (length B) = ceil_div dataSize blockSize /\
    (forall i : nat, (i < length B)%nat ->
       B !! i = Some (take bs (drop (i * bs) data))) /\
    concat B = data /\
    w_queue w' = w_queue w ++ map (mkMessage (HostId this) destRank tag) B /\
    w_log w' = w_log w ++
      map (fun b => Call_Isend (HostId this) destRank tag (Z.of_nat (length b))) B /\
    WriteAsync5 fuel this data dataSize destRank tag requests w
      = WriteAsync6 fuel this data dataSize (Z.min dataSize 1073741824)
          destRank tag requests w.
Proof.
  intros Hb Hfuel bs B.
  pose proof Hb as (Hlen & Hbs & Hint & Hwrap).
  assert (Hpos : (0 < bs)%nat) by (subst bs; lia).
  assert (Hcount : Z.of_nat (length B) = ceil_div dataSize blockSize).
  { subst B bs. rewrite length_blocks by assumption.
    rewrite Z2Nat.id by lia. rewrite Hlen. reflexivity. }
  destruct (after_sends_fixed (HostId this) destRank tag B w) as (Hq & _ & _ & _ & Hl).
  exists (after_sends (HostId this) destRank tag B w).
  split; [|split; [|split; [|split; [|split; [|split]]]]].
  - apply WriteAsync6_send_blocks; [assumption|]. fold bs B. lia.
  - exact Hcount.
  - intros i Hi. apply blocks_lookup; assumption.
  - apply concat_blocks. assumption.
  - exact Hq.
  - exact Hl.
  - unfold WriteAsync5. rewrite default_block_size by lia. reflexivity.
Qed.

Lemma WriteAsync_sends_one_block_per_request_witness :
  let data := [Byte.x01; Byte.x02; Byte.x03; Byte.x04; Byte.x05] in
  let w := World0 zero_memory in
  exists w',
    WriteAsync6 3 (mkManager 2 0 0 false) data 5 2 1 1023 [] w
      = Returns ([TMpiRequest_of 0; TMpiRequest_of 1; TMpiRequest_of 2], w') /\
    w_queue w' = [mkMessage 0 1 1023 [Byte.x01; Byte.x02];
                  mkMessage 0 1 1023 [Byte.x03; Byte.x04];
                  mkMessage 0 1 1023 [Byte.x05]].
Proof.
  intros data w.
  assert (Hb : send_bounds data 5 2).
  { unfold send_bounds, INT_MAX. repeat split; try reflexivity; lia. }
  assert (Hfuel : (Z.to_nat (ceil_div 5 2) <= 3)%nat) by (vm_compute; lia).
  destruct (WriteAsync_sends_one_block_per_request 3 (mkManager 2 0 0 false)
              data 5 2 1 1023 [] w Hb Hfuel)
    as (w' & Hret & _ & _ & _ & Hq & _).
  exists w'. split; [exact Hret|exact Hq].
Defined.

(** The receiving side posts one receive per block, the buffers one block
    size apart. *)
Lemma ReadAsync_posts_one_receive_per_block fuel this (data : list byte) dst
    dataSize blockSize sourceRank tag requests w :
  block_bounds data dataSize blockSize ->
  (Z.to_nat (ceil_div dataSize blockSize) <= fuel)%nat ->
  let B := blocks (Z.to_nat blockSize) data in
  exists w',
    ReadAsync6 fuel this dst dataSize blockSize sourceRank tag requests w
      = Returns (requests ++ pending_requests (w_next w) (length B), w') /\
    w_posted w' = w_posted w ++
      receives (HostId this) sourceRank tag blockSize dst (w_next w) B /\
    ReadAsync5 fuel this dst dataSize sourceRank tag requests w
      = ReadAsync6 fuel this dst dataSize (Z.min dataSize 1073741824)
          sourceRank tag requests w.
Proof.
  intros Hb Hfuel B.
  pose proof (blocks_count data dataSize blockSize Hb) as Hcount. fold B in Hcount.
  pose proof Hb as (Hlen & Hbs & Hmax).
  destruct (after_recvs_fixed (HostId this) sourceRank tag blockSize B dst w)
    as (_ & Hp & _).
  eexists. split; [|split].
  - apply (ReadAsync6_blocks fuel this data); [assumption|]. fold B. lia.
  - exact Hp.
  - unfold ReadAsync5. rewrite default_block_size by lia. reflexivity.
Qed.

(** The round trip at an explicit block size. *)
Lemma chunked_transfer6_round_trip fuel sender receiver (data : list byte)
    dataSize blockSize tag dst w :
  idle w ->
  block_bounds data dataSize blockSize ->
  0 < dataSize ->
  let B := blocks (Z.to_nat blockSize) data in
  (length B <= fuel)%nat ->
  exists sends recvs w',
    chunked_transfer6 fuel sender receiver data dataSize blockSize tag dst w
      = Returns ((sends, recvs), w') /\
    load_bytes (w_mem w' (HostId receiver)) dst (length data) = data /\
    Forall (fun r => state_of r = Complete) sends /\
    Forall (fun r => state_of r = Complete) recvs /\
    length sends = length B /\ length recvs = length B /\
    idle w'.
Proof.
  intros [Hq0 Hp0] Hb Hpos B HB.
  pose proof Hb as (Hlen & Hbs & Hmax).
  set (rs := HostId sender). set (rr := HostId receiver).
  set (w1 := after_sends rs rr tag B w).
  set (w2 := after_recvs rr rs tag blockSize dst B w1).
  destruct (after_sends_fixed rs rr tag B w) as (Hq1 & Hp1 & Hm1 & Hn1 & _).
  destruct (after_recvs_fixed rr rs tag blockSize B dst w1) as (Hq2 & Hp2 & Hm2 & Hn2).
  fold w1 in Hq1, Hp1, Hm1, Hn1. fold w2 in Hq2, Hp2, Hm2, Hn2.
  rewrite Hq0 in Hq1. rewrite Hp0 in Hp1. cbn [app] in Hq1.
  rewrite Hp1 in Hp2. cbn [app] in Hp2. rewrite Hq1 in Hq2.
  assert (Ha : aligned w2).
  { unfold aligned. rewrite Hp2, Hq2. apply receives_fit. }
  assert (HBpos : (0 < length B)%nat).
  { subst B. destruct data as [|x data]; [cbn in Hlen; lia|].
    rewrite blocks_cons by (lia || discriminate). cbn. lia. }
  assert (Hdone : w_done (settle w2)
                  = w_done (deliveries (receives rr rs tag blockSize dst (w_next w1) B)
                              (map (mkMessage rs rr tag) B) w2)).
  { unfold settle. rewrite Hp2, Hq2. reflexivity. }
  assert (Hsends : forall r, r ∈ handles (w_next w) (length B) ->
                             is_Some (w_done (settle w2) !! r)).
  { intros r Hr. rewrite Hdone. apply deliveries_keeps.
    unfold w2. rewrite after_recvs_done
      by (apply handles_range in Hr; rewrite Hn1; lia).
    apply after_sends_done. exact Hr. }
  assert (Hrecvs : forall r, r ∈ handles (w_next w1) (length B) ->
                             is_Some (w_done (settle w2) !! r)).
  { intros r Hr. rewrite Hdone. apply deliveries_done. exact Hr. }
  set (cs1 := map Call_Wait (handles (w_next w) (length B))).
  set (w3 := traces cs1 (settle w2)).
  set (cs2 := map Call_Wait (handles (w_next w1) (length B))).
  destruct (traces_fixed cs1 (settle w2)) as (_ & _ & Hd3 & Hm3 & _). fold w3 in Hd3, Hm3.
  destruct (traces_fixed cs2 w3) as (_ & _ & _ & Hm4 & _).
  assert (Hi3 : idle w3) by (apply idle_traces, settle_idle, Ha).
  exists (map (completed (settle w2)) (handles (w_next w) (length B))),
         (map (completed w3) (handles (w_next w1) (length B))),
         (traces cs2 w3).
  split; [|split; [|split; [|split; [|split; [|split]]]]].
  - unfold chunked_transfer6. unfold bind at 1.
    rewrite (WriteAsync6_blocks fuel sender data) by assumption.
    unfold bind at 1. fold rs rr B w1.
    rewrite (ReadAsync6_blocks fuel receiver data) by assumption.
    fold rs rr B w2. cbn [app]. unfold pending_requests.
    unfold bind at 1.
    rewrite WaitAll_aligned;
      [|exact Ha|apply handles_nonempty; exact HBpos|exact Hsends].
    fold cs1 w3. unfold bind at 1.
    rewrite WaitAll_idle; [reflexivity|exact Hi3|].
    intros r Hr. rewrite Hd3. apply Hrecvs. exact Hr.
  - rewrite Hm4, Hm3. unfold settle. cbn [set_posted w_mem].
    rewrite Hp2, Hq2. fold rr. rewrite deliveries_memory.
    rewrite Hm2, Hm1.
    replace blockSize with (Z.of_nat (Z.to_nat blockSize)) at 1 by lia.
    apply load_store_blocks. lia.
  - apply Forall_fmap, Forall_true. intros h. reflexivity.
  - apply Forall_fmap, Forall_true. intros h. reflexivity.
  - rewrite length_map, length_handles. reflexivity.
  - rewrite length_map, length_handles. reflexivity.
  - apply idle_traces. exact Hi3.
Qed.

Lemma default_blocks_at_most_four dataSize :
  0 < dataSize <= 4 * 1073741824 ->
  ceil_div dataSize (Z.min dataSize 1073741824) <= 4.
Proof.
  intros Hs. unfold ceil_div.
  destruct (Z.le_gt_cases dataSize 1073741824) as [Hle|Hgt].
  - rewrite Z.min_l by assumption.
    apply Z.div_le_upper_bound; lia.
  - rewrite Z.min_r by lia.
    assert ((dataSize + 1073741824 - 1) / 1073741824 < 5); [|lia].
    apply Z.div_lt_upper_bound; lia.
Qed.

(** C1: a payload of [s] bytes, [0 < s <= 4 * 2^30], sent with the chunked
    send at its default block size [min (s, 2^30)] and received with the
    chunked receive at its default block size, which is the same, is laid
    out in the receiver's buffer byte for byte once both sides have waited
    for their requests: the call sequence returns, every request is
    complete, and no message or receive is left over.  The block size may
    divide the payload size or not. *)
Theorem chunked_round_trip fuel sender receiver (data : list byte) dataSize tag dst w :
  idle w ->
  dataSize = Z.of_nat (length data) ->
  0 < dataSize <= 4 * 1073741824 ->
  (4 <= fuel)%nat ->
  exists sends recvs w',
    chunked_transfer fuel sender receiver data dataSize tag dst w
      = Returns ((sends, recvs), w') /\
    load_bytes (w_mem w' (HostId receiver)) dst (length data) = data /\
    Forall (fun r => state_of r = Complete) (sends ++ recvs) /\
    Z.of_nat (length sends) = ceil_div dataSize (Z.min dataSize 1073741824) /\
    length recvs = length sends /\
    idle w'.
Proof.
  intros Hi Hlen Hs Hfuel.
  set (blockSize := Z.min dataSize 1073741824).
  assert (Hb : block_bounds data dataSize blockSize).
  { unfold block_bounds, INT_MAX. subst blockSize. repeat split; lia. }
  pose proof (blocks_count data dataSize blockSize Hb) as Hcount.
  pose proof (default_blocks_at_most_four dataSize Hs) as Hfour.
  fold blockSize in Hfour.
  destruct (chunked_transfer6_round_trip fuel sender receiver data dataSize blockSize
              tag dst w Hi Hb) as (sends & recvs & w' & Hret & Hload & Hc1 & Hc2 & Hl1 & Hl2 & Hi');
    [lia|lia|].
  exists sends, recvs, w'.
  split; [|split; [|split; [|split; [|split]]]].
  - unfold chunked_transfer, WriteAsync5, ReadAsync5.
    rewrite default_block_size by lia. exact Hret.
  - exact Hload.
  - apply Forall_app. split; assumption.
  - rewrite Hl1. exact Hcount.
  - congruence.
  - exact Hi'.
Qed.

Lemma chunked_round_trip_witness :
  let data := [Byte.x61; Byte.x62; Byte.x63] in
  exists sends recvs w',
    chunked_transfer 4 (mkManager 2 0 0 false) (mkManager 2 1 0 false) data 3 1023 100
      (World0 zero_memory) = Returns ((sends, recvs), w') /\
    load_bytes (w_mem w' 1) 100 3 = data.
Proof.
  intros data.
  assert (Hi : idle (World0 zero_memory)) by (split; reflexivity).
  assert (Hlen : 3 = Z.of_nat (length data)) by reflexivity.
  assert (Hs : 0 < 3 <= 4 * 1073741824) by lia.
  assert (Hfuel : (4 <= 4)%nat) by lia.
  destruct (chunked_round_trip 4 (mkManager 2 0 0 false) (mkManager 2 1 0 false)
              data 3 1023 100 (World0 zero_memory) Hi Hlen Hs Hfuel)
    as (sends & recvs & w' & Hret & Hload & _).
  exists sends, recvs, w'. split; [exact Hret|exact Hload].
Defined.

End ChunkedTransport.

(** ** Typed values *)

Section TypedValues.

#[local] Instance char_layout : PodLayout byte.
Proof. split; intros v; reflexivity. Qed.

Lemma Z_of_two_gib : Z.of_nat two_gib = 2147483648.
Proof. unfold two_gib. apply Z2Nat.id. lia. Qed.

#[local] Instance BigArray_layout : PodLayout BigArray.
Proof.
  split.
  - intros [l Hl]. cbn [object_bytes BigArray_wire proj1_sig sizeof].
    rewrite Hl. apply Z_of_two_gib.
  - intros [l Hl]. cbn [object_bytes object_of_bytes BigArray_wire proj1_sig].
    unfold BigArray_of_bytes.
    destruct (Nat.eq_dec (length l) two_gib) as [H|H]; [|contradiction].
    f_equal. apply (proof_irrel H Hl).
Qed.

Context {T : Type} `{Wire T}.

(** A size that reads as a negative [int] stops the typed send. *)
Lemma Send_size_beyond_int this (value : T) rank tag w :
  is_pod T = true -> to_int (sizeof T) < 0 ->
  Send this value rank tag w = Stops (MpiAbort MPI_ERR_COUNT).
Proof.
  intros Hpod Hneg. unfold Send, SendPod, bind, lift, CB_ENSURE, check.
  rewrite Hpod. unfold Write, MPI_SAFE_CALL, MPI_Send.
  destruct (Z.ltb_spec (to_int (sizeof T)) 0); [reflexivity|lia].
Qed.

Lemma Send_pod `{!PodLayout T} this (value : T) rank tag w :
  is_pod T = true -> sizeof T <= INT_MAX ->
  Send this value rank tag w =
    Returns (tt, enqueue (HostId this) (object_bytes value) (sizeof T) rank tag
                   (trace (Call_Send (HostId this) rank tag (sizeof T)) w)).
Proof.
  intros Hpod Hmax. pose proof (pod_size value) as Hsize.
  unfold Send, SendPod, bind, lift, CB_ENSURE, check.
  rewrite Hpod. unfold Write, MPI_SAFE_CALL, MPI_Send.
  rewrite to_int_small by (unfold INT_MIN, INT_MAX in *; lia).
  destruct (Z.ltb_spec (sizeof T) 0); [lia|]. reflexivity.
Qed.

(** C5: the value received by the typed receive is the value that the typed
    send was given, bit for bit: the send transmits the [sizeof (T)] bytes
    of the value in one message, the receive posts one receive of
    [sizeof (T)] bytes at the result and waits for it; the receive returns,
    and nothing is left in flight.  The typed path is the single-message
    path, so the size of the type is within what one message takes: the
    hypothesis is that [sizeof (T)] fits the [int] count of [Write] and
    [ReadAsync], which holds for every size up to the cap of 2^30. *)
Theorem typed_round_trip `{!PodLayout T} sender receiver (value : T)
    tag result buffer w :
  idle w ->
  is_pod T = true ->
  sizeof T <= INT_MAX ->
  exists w',
    typed_transfer sender receiver value tag result buffer w = Returns (value, w') /\
    load_bytes (w_mem w' (HostId receiver)) result (Z.to_nat (sizeof T))
      = object_bytes value /\
    w_log w' = w_log w ++
      [Call_Send (HostId sender) (HostId receiver) tag (sizeof T);
       Call_Irecv (HostId receiver) (HostId sender) tag result (sizeof T);
       Call_Wait (w_next w)] /\
    idle w'.
Proof.
  intros [Hq0 Hp0] Hpod Hmax.
  pose proof (pod_size value) as Hsize.
  set (rs := HostId sender). set (rr := HostId receiver).
  set (b := object_bytes value) in *.
  set (w1 := enqueue rs b (sizeof T) rr tag (trace (Call_Send rs rr tag (sizeof T)) w)).
  set (w2 := after_Irecv rr rs tag result (sizeof T) w1).
  assert (Hq2 : w_queue w2 = map (mkMessage rs rr tag) [b]).
  { cbn [w2 after_Irecv trace set_next set_done set_posted w_queue
         w1 enqueue set_queue].
    rewrite Hq0, <- Hsize, Nat2Z.id, firstn_all. reflexivity. }
  assert (Hp2 : w_posted w2 = receives rr rs tag 0 result (w_next w) [b]).
  { cbn [w2 after_Irecv trace set_next set_done set_posted w_posted w_next
         w1 enqueue set_queue receives].
    rewrite Hp0, Hsize. reflexivity. }
  assert (Ha : aligned w2).
  { unfold aligned. rewrite Hp2, Hq2. apply receives_fit. }
  assert (Hd : is_Some (w_done (settle w2) !! w_next w)).
  { unfold settle. cbn [set_posted w_done]. rewrite Hp2, Hq2.
    apply deliveries_done. left. }
  set (w3 := trace (Call_Wait (w_next w)) (settle w2)).
  exists w3.
  assert (Hload : load_bytes (w_mem w3 rr) result (Z.to_nat (sizeof T)) = b).
  { cbn [w3 trace w_mem]. unfold settle. cbn [set_posted w_mem].
    rewrite Hp2, Hq2, deliveries_memory. cbn [store_blocks].
    rewrite <- Hsize, Nat2Z.id. apply load_store_bytes. }
  split; [|split; [|split]].
  - unfold typed_transfer. unfold bind at 1.
    rewrite Send_pod by assumption. fold rs rr b w1.
    unfold Receive. rewrite Hpod.
    unfold bind at 1. unfold ReceivePodAsync, bind at 1, lift, CB_ENSURE, check.
    rewrite Hpod.
    rewrite to_int_small by (unfold INT_MIN, INT_MAX in *; lia).
    rewrite ReadAsync4_posted by lia. fold rr rs w2.
    unfold bind at 1.
    change (w_next w1) with (w_next w).
    rewrite WaitComplete_aligned by assumption. fold w3.
    unfold bind at 1, lift, read_memory, ret. cbn [destroy completed Flag Z.eqb negb
      Y_VERIFY check].
    unfold bind. fold rr. rewrite Hload. subst b. rewrite pod_value. reflexivity.
  - exact Hload.
  - cbn [w3 trace w_log]. unfold settle. cbn [set_posted w_log].
    destruct (deliveries_fixed (w_posted w2) (w_queue w2) w2) as (_ & Hlog & _).
    rewrite Hlog. cbn. rewrite <- !app_assoc. reflexivity.
  - apply idle_trace, settle_idle, Ha.
Qed.

End TypedValues.

Section TypedValuesExamples.

Lemma typed_round_trip_witness :
  exists w',
    typed_transfer (mkManager 2 0 0 false) (mkManager 2 1 0 false) Byte.x2a
      1023 64 128 (World0 zero_memory) = Returns (Byte.x2a, w').
Proof.
  assert (Hi : idle (World0 zero_memory)) by (split; reflexivity).
  assert (Hpod : is_pod byte = true) by reflexivity.
  assert (Hmax : sizeof byte <= INT_MAX) by (change (1 <= 2147483647); lia).
  destruct (@typed_round_trip byte char_wire char_layout
              (mkManager 2 0 0 false) (mkManager 2 1 0 false) Byte.x2a
              1023 64 128 (World0 zero_memory) Hi Hpod Hmax) as (w' & Hret & _).
  exists w'. exact Hret.
Defined.

(** Beyond the size of one message: for a fixed-layout type of 2^31 bytes
    [sizeof] reaches [Write] as the [int] -2147483648, and the send
    stops. *)
Lemma typed_transfer_of_two_gib_stops :
  is_pod BigArray = true /\
  sizeof BigArray = 2147483648 /\
  PodLayout BigArray /\
  typed_transfer (mkManager 2 0 0 false) (mkManager 2 1 0 false) BigArray_zero
    1023 64 128 (World0 zero_memory) = Stops (MpiAbort MPI_ERR_COUNT).
Proof.
  split; [reflexivity|]. split; [reflexivity|]. split; [exact BigArray_layout|].
  unfold typed_transfer, bind.
  rewrite Send_size_beyond_int; [reflexivity|reflexivity|].
  change (to_int (sizeof BigArray)) with (-2147483648). lia.
Qed.

End TypedValuesExamples.

(** ** One message, one receive *)

Section OneMessage.

Lemma world_eta w :
  mkWorld (w_queue w) (w_posted w) (w_done w) (w_mem w) (w_next w) (w_log w) = w.
Proof. destruct w; reflexivity. Qed.



Lemma progress_no_posted w : w_posted w = [] -> progress w = (MPI_SUCCESS, w).
Proof.
  intros Hp. unfold progress. rewrite Hp. cbn [match_posted].
  unfold set_posted. rewrite <- Hp. rewrite world_eta. reflexivity.
Qed.

Lemma matches_addressed req rank source tag buf count b :
  matches (mkPosted req rank source tag buf count) (mkMessage source rank tag b) = true.
Proof. unfold matches. cbn. rewrite !Z.eqb_refl. reflexivity. Qed.

(** One posted receive and its message. *)
Lemma progress_one req rank source tag buf count b w :
  w_posted w = [mkPosted req rank source tag buf count] ->
  w_queue w = [mkMessage source rank tag b] ->
  progress w =
    if count <? Z.of_nat (length b) then (MPI_ERR_TRUNCATE, w)
    else (MPI_SUCCESS,
          set_posted []
            (deliver (mkPosted req rank source tag buf count)
                     (mkMessage source rank tag b) [] w)).
Proof.
  intros Hp Hq. unfold progress. rewrite Hp. cbn [match_posted]. rewrite Hq.
  cbn [take_first]. rewrite matches_addressed. cbn [rcv_count msg_bytes].
  destruct (count <? Z.of_nat (length b)).
  - unfold set_posted. rewrite <- Hp. rewrite world_eta. reflexivity.
  - reflexivity.
Qed.

Lemma Write_enqueues this data n dest tag w :
  0 <= n ->
  Write this data n dest tag w =
    Returns (tt, enqueue (HostId this) data n dest tag
                   (trace (Call_Send (HostId this) dest tag n) w)).
Proof.
  intros Hn. unfold Write, MPI_SAFE_CALL, MPI_Send.
  destruct (Z.ltb_spec n 0); [lia|]. reflexivity.
Qed.

(** A blocking receive of the one queued message. *)
Lemma MPI_Recv_one rank buf count source tag b w :
  w_posted w = [] ->
  w_queue w = [mkMessage source rank tag b] ->
  0 <= count ->
  MPI_Recv rank buf count source tag w =
    if count <? Z.of_nat (length b)
    then Returns ((MPI_ERR_TRUNCATE, mkStatus 0),
                  set_next (w_next w + 1)
                    (set_done (delete (w_next w) (w_done w))
                      (set_posted [mkPosted (w_next w) rank source tag buf count]
                        (trace (Call_Recv rank source tag buf count) w))))
    else Returns ((MPI_SUCCESS, mkStatus (Z.of_nat (length b))),
                  mkWorld [] []
                    (<[w_next w := Z.of_nat (length b)]> (delete (w_next w) (w_done w)))
                    (store_at rank buf b (w_mem w))
                    (w_next w + 1)
                    (w_log w ++ [Call_Recv rank source tag buf count])).
Proof.
  intros Hp Hq Hc. unfold MPI_Recv.
  destruct (Z.ltb_spec count 0); [lia|].
  cbn [trace w_next w_done w_posted]. rewrite Hp. cbn [app].
  erewrite progress_one; [|reflexivity|cbn; exact Hq].
  destruct (count <? Z.of_nat (length b)); cbn [negb Z.eqb MPI_SUCCESS MPI_ERR_TRUNCATE].
  - reflexivity.
  - cbn [deliver set_posted set_mem set_done set_queue set_next trace
         w_done w_mem w_next w_log w_queue w_posted rcv_req rcv_rank rcv_buf msg_bytes].
    rewrite lookup_insert_eq. reflexivity.
Qed.

Lemma Read_one this buf count source tag b w :
  w_posted w = [] ->
  w_queue w = [mkMessage source (HostId this) tag b] ->
  0 <= count ->
  Read this buf count source tag w =
    if count <? Z.of_nat (length b) then Stops (MpiAbort MPI_ERR_TRUNCATE)
    else Returns (tt,
                  mkWorld [] []
                    (<[w_next w := Z.of_nat (length b)]> (delete (w_next w) (w_done w)))
                    (store_at (HostId this) buf b (w_mem w))
                    (w_next w + 1)
                    (w_log w ++ [Call_Recv (HostId this) source tag buf count])).
Proof.
  intros Hp Hq Hc. unfold Read, bind, MPI_SAFE_CALL.
  rewrite (MPI_Recv_one _ _ _ _ _ b) by assumption.
  destruct (count <? Z.of_nat (length b)); reflexivity.
Qed.

Lemma load_store_at rank buf b (mem : Z -> Z -> byte) :
  load_bytes (store_at rank buf b mem rank) buf (length b) = b.
Proof. unfold store_at. rewrite Z.eqb_refl. apply load_store_bytes. Qed.

Lemma store_at_other rank buf b (mem : Z -> Z -> byte) r a :
  r <> rank \/ a < buf \/ buf + Z.of_nat (length b) <= a ->
  store_at rank buf b mem r a = mem r a.
Proof.
  intros Hout. unfold store_at. destruct (Z.eqb_spec r rank) as [->|Hne]; [|reflexivity].
  apply store_bytes_outside. destruct Hout as [?|?]; [contradiction|assumption].
Qed.

Lemma probe_queue_one rank source tag b w :
  w_queue w = [mkMessage source rank tag b] ->
  probe_queue rank source tag w = Some (mkMessage source rank tag b).
Proof.
  intros Hq. unfold probe_queue. rewrite Hq. cbn. rewrite !Z.eqb_refl. reflexivity.
Qed.

Lemma DynamicReceive_one this source tag dst b w :
  w_posted w = [] ->
  w_queue w = [mkMessage source (HostId this) tag b] ->
  Z.of_nat (length b) <= INT_MAX ->
  DynamicReceive this source tag dst w =
    Returns (b,
             mkWorld [] []
               (<[w_next w := Z.of_nat (length b)]> (delete (w_next w) (w_done w)))
               (store_at (HostId this) dst b (w_mem w))
               (w_next w + 1)
               (w_log w ++ [Call_Probe (HostId this) source tag; Call_Get_count;
                            Call_Recv (HostId this) source tag dst
                              (Z.of_nat (length b))])).
Proof.
  intros Hp Hq Hmax. unfold DynamicReceive.
  unfold bind at 1. unfold MPI_SAFE_CALL at 1, MPI_Probe.
  rewrite progress_no_posted by exact Hp.
  cbn [negb Z.eqb MPI_SUCCESS].
  rewrite (probe_queue_one _ _ _ b) by exact Hq.
  cbn [negb Z.eqb MPI_SUCCESS msg_bytes].
  unfold bind at 1. unfold MPI_SAFE_CALL at 1, MPI_Get_count.
  cbn [negb Z.eqb MPI_SUCCESS st_count].
  rewrite to_int_small by (unfold INT_MIN, INT_MAX in *; lia).
  unfold bind at 1. unfold MPI_SAFE_CALL.
  rewrite (MPI_Recv_one _ _ _ _ _ b); [|exact Hp|exact Hq|lia].
  rewrite Z.ltb_irrefl. cbn [negb Z.eqb MPI_SUCCESS].
  unfold read_memory. cbn [w_mem w_next w_done w_log trace].
  rewrite Nat2Z.id, load_store_at, <- !app_assoc. reflexivity.
Qed.

End OneMessage.
(** ** Blocking and dynamic transfers *)

Section Transfers.

Lemma after_Write_from_idle this data n dest tag w :
  idle w -> n = Z.of_nat (length data) ->
  let w1 := enqueue (HostId this) data n dest tag
              (trace (Call_Send (HostId this) dest tag n) w) in
  w_posted w1 = [] /\
  w_queue w1 = [mkMessage (HostId this) dest tag data] /\
  w_mem w1 = w_mem w /\
  w_log w1 = w_log w ++ [Call_Send (HostId this) dest tag n].
Proof.
  intros [Hq Hp] Hn w1. subst w1.
  cbn [enqueue set_queue trace w_posted w_queue w_mem w_log].
  rewrite Hq, Hp, Hn, take_all. repeat split; reflexivity.
Qed.

(** X6: a blocking [Write] of [n] bytes answered by a blocking [Read] with a
    buffer of [bufSize] bytes: when the buffer is large enough the bytes
    arrive at the buffer and nothing else in memory changes; when it is too
    small the read stops in a transport error. *)
Theorem blocking_round_trip sender receiver (data : list byte) n tag dst bufSize w :
  idle w ->
  n = Z.of_nat (length data) ->
  0 <= bufSize ->
  (n <= bufSize ->
   exists w',
     blocking_transfer sender receiver data n tag dst bufSize w = Returns (tt, w') /\
     load_bytes (w_mem w' (HostId receiver)) dst (length data) = data /\
     (forall r a, r <> HostId receiver \/ a < dst \/ dst + n <= a ->
                  w_mem w' r a = w_mem w r a) /\
     idle w') /\
  (bufSize < n ->
   blocking_transfer sender receiver data n tag dst bufSize w
     = Stops (MpiAbort MPI_ERR_TRUNCATE)).
Proof.
  intros Hi Hn Hb.
  destruct (after_Write_from_idle sender data n (HostId receiver) tag w Hi Hn)
    as (Hp1 & Hq1 & Hm1 & _).
  assert (Hrun : blocking_transfer sender receiver data n tag dst bufSize w =
                 Read receiver dst bufSize (HostId sender) tag
                   (enqueue (HostId sender) data n (HostId receiver) tag
                      (trace (Call_Send (HostId sender) (HostId receiver) tag n) w))).
  { unfold blocking_transfer, bind. rewrite Write_enqueues by lia. reflexivity. }
  rewrite Hrun. rewrite (Read_one _ _ _ _ _ data) by assumption.
  split; intros Hsize.
  - destruct (Z.ltb_spec bufSize (Z.of_nat (length data))); [lia|].
    eexists. split; [reflexivity|]. cbn [w_mem]. rewrite Hm1.
    split; [apply load_store_at|]. split; [|split; reflexivity].
    intros r a Hout. apply store_at_other. lia.
  - destruct (Z.ltb_spec bufSize (Z.of_nat (length data))); [reflexivity|lia].
Qed.

Lemma blocking_round_trip_witness :
  exists w',
    blocking_transfer (mkManager 2 0 0 false) (mkManager 2 1 0 false)
      [Byte.x61; Byte.x62] 2 7 100 8 (World0 zero_memory) = Returns (tt, w') /\
    load_bytes (w_mem w' 1) 100 2 = [Byte.x61; Byte.x62].
Proof.
  assert (Hi : idle (World0 zero_memory)) by (split; reflexivity).
  assert (Hn : 2 = Z.of_nat (length [Byte.x61; Byte.x62])) by reflexivity.
  assert (Hb : 0 <= 8) by lia.
  destruct (blocking_round_trip (mkManager 2 0 0 false) (mkManager 2 1 0 false)
              [Byte.x61; Byte.x62] 2 7 100 8 (World0 zero_memory) Hi Hn Hb)
    as [Hfits _].
  destruct Hfits as (w' & Hret & Hload & _); [lia|].
  exists w'. split; [exact Hret|exact Hload].
Defined.

(** X7: [DynamicReceive] needs no size: it returns the bytes that were
    written, however many, and leaves nothing in flight. *)
Theorem dynamic_round_trip sender receiver (data : list byte) n tag dst w :
  idle w ->
  n = Z.of_nat (length data) ->
  n <= INT_MAX ->
  exists w',
    dynamic_transfer sender receiver data n tag dst w = Returns (data, w') /\
    load_bytes (w_mem w' (HostId receiver)) dst (length data) = data /\
    idle w'.
Proof.
  intros Hi Hn Hmax.
  destruct (after_Write_from_idle sender data n (HostId receiver) tag w Hi Hn)
    as (Hp1 & Hq1 & Hm1 & _).
  unfold dynamic_transfer, bind. rewrite Write_enqueues by lia.
  rewrite (DynamicReceive_one _ _ _ _ data) by (assumption || lia).
  eexists. split; [reflexivity|]. cbn [w_mem].
  split; [apply load_store_at|split; reflexivity].
Qed.

Lemma dynamic_round_trip_witness :
  exists w',
    dynamic_transfer (mkManager 2 0 0 false) (mkManager 2 1 0 false)
      [Byte.x61; Byte.x62; Byte.x63] 3 7 100 (World0 zero_memory)
    = Returns ([Byte.x61; Byte.x62; Byte.x63], w').
Proof.
  assert (Hi : idle (World0 zero_memory)) by (split; reflexivity).
  assert (Hn : 3 = Z.of_nat (length [Byte.x61; Byte.x62; Byte.x63])) by reflexivity.
  assert (Hmax : 3 <= INT_MAX) by (unfold INT_MAX; lia).
  destruct (dynamic_round_trip (mkManager 2 0 0 false) (mkManager 2 1 0 false)
              [Byte.x61; Byte.x62; Byte.x63] 3 7 100 (World0 zero_memory) Hi Hn Hmax)
    as (w' & Hret & _).
  exists w'. exact Hret.
Defined.

(** X9: [SendTask] and the inbox of the device: a task of a size that
    [SendTask] accepts, sent by the master in either mode, is what a
    [DynamicReceive] on the host of the device gets on the task tag of the
    device. *)
Theorem task_reaches_inbox master worker task deviceId dst w :
  idle w ->
  IsMaster master = true ->
  0 <= DeviceId deviceId < INT_MAX ->
  0 < task_Size task < BufferSize ->
  HostId worker = HostIdOf deviceId ->
  exists w',
    task_transfer master worker task deviceId dst w = Returns (task_bytes task, w') /\
    idle w'.
Proof.
  intros [Hq Hp] Hm Hd Hsize Hw. unfold BufferSize in Hsize.
  unfold task_transfer. unfold bind at 1.
  rewrite SendTask_outcome by assumption.
  assert (Hint : to_int (task_Size task) = task_Size task).
  { apply to_int_small. unfold INT_MIN, INT_MAX. lia. }
  rewrite Hint. unfold BufferSize.
  destruct (Z.ltb_spec (task_Size task) (32 * 1024 * 1024)); [|lia]. cbn [negb].
  destruct (Z.eqb_spec (task_Size task) 0); [lia|].
  destruct (Z.ltb_spec (task_Size task) 0); [lia|].
  unfold bind at 1, lift. rewrite GetTaskTag_small by assumption.
  rewrite <- Hw.
  rewrite (DynamicReceive_one _ _ _ _ (task_bytes task)).
  - eexists. split; [reflexivity|split; reflexivity].
  - cbn [enqueue set_queue trace w_posted]. exact Hp.
  - cbn [enqueue set_queue trace w_queue]. rewrite Hq. cbn [app].
    unfold task_Data, task_Size. rewrite take_all. reflexivity.
  - unfold task_Size, INT_MAX in *. lia.
Qed.

Lemma task_reaches_inbox_witness :
  exists w',
    task_transfer (mkManager 2 0 0 true) (mkManager 2 1 0 false)
      (mkTask [Byte.x01; Byte.x02]) (mkDeviceId 1 3) 100 (World0 zero_memory)
    = Returns ([Byte.x01; Byte.x02], w').
Proof.
  assert (Hi : idle (World0 zero_memory)) by (split; reflexivity).
  assert (Hm : IsMaster (mkManager 2 0 0 true) = true) by reflexivity.
  assert (Hd : 0 <= DeviceId (mkDeviceId 1 3) < INT_MAX)
    by (change (0 <= 3 < 2147483647); lia).
  assert (Hs : 0 < task_Size (mkTask [Byte.x01; Byte.x02]) < BufferSize)
    by (change (0 < 2 < 32 * 1024 * 1024); lia).
  assert (Hw : HostId (mkManager 2 1 0 false) = HostIdOf (mkDeviceId 1 3)) by reflexivity.
  destruct (task_reaches_inbox (mkManager 2 0 0 true) (mkManager 2 1 0 false)
              (mkTask [Byte.x01; Byte.x02]) (mkDeviceId 1 3) 100 (World0 zero_memory)
              Hi Hm Hd Hs Hw) as (w' & Hret & _).
  exists w'. exact Hret.
Defined.





End Transfers.
(** ** Sizes, polls and serialized values *)

Section SizesAndPolls.

Lemma after_Irecv_one rank source tag buf count b w :
  w_posted w = [] ->
  w_queue w = [mkMessage source rank tag b] ->
  let w2 := after_Irecv rank source tag buf count w in
  w_posted w2 = [mkPosted (w_next w) rank source tag buf count] /\
  w_queue w2 = [mkMessage source rank tag b].
Proof.
  intros Hp Hq w2. subst w2.
  cbn [after_Irecv trace set_next set_done set_posted w_posted w_queue w_next].
  rewrite Hp, Hq. split; reflexivity.
Qed.

(** X11: the byte count of a receive.  A message of [n] bytes received
    through [ReceiveBufferAsync] into a buffer of at least [n] bytes: after
    the wait the request is complete, [ReceivedBytes] is [n], whatever the
    size of the buffer, and the bytes are at the start of the buffer. *)
Theorem ReceivedBytes_is_message_size sender receiver (data : list byte)
    n tag dst_Data dst_Size w :
  idle w ->
  n = Z.of_nat (length data) ->
  n <= dst_Size <= INT_MAX ->
  exists r w',
    sized_receive sender receiver data n tag dst_Data dst_Size w
      = Returns ((n, r), w') /\
    state_of r = Complete /\
    load_bytes (w_mem w' (HostId receiver)) dst_Data (length data) = data.
Proof.
  intros Hi Hn Hsize.
  set (rs := HostId sender). set (rr := HostId receiver).
  destruct (after_Write_from_idle sender data n rr tag w Hi Hn) as (Hp1 & Hq1 & Hm1 & _).
  fold rs in Hp1, Hq1, Hm1.
  set (w1 := enqueue rs data n rr tag (trace (Call_Send rs rr tag n) w)) in *.
  destruct (after_Irecv_one rr rs tag dst_Data dst_Size data w1 Hp1 Hq1) as (Hp2 & Hq2).
  set (w2 := after_Irecv rr rs tag dst_Data dst_Size w1) in *.
  assert (Ha : aligned w2).
  { unfold aligned. rewrite Hp2, Hq2. constructor; [|constructor].
    split; [apply matches_addressed|cbn; lia]. }
  assert (Hs : settle w2 = set_posted []
                 (deliver (mkPosted (w_next w1) rr rs tag dst_Data dst_Size)
                          (mkMessage rs rr tag data) [] w2)).
  { unfold settle. rewrite Hp2, Hq2. reflexivity. }
  assert (Hd : w_done (settle w2) !! w_next w1 = Some n).
  { rewrite Hs. cbn [set_posted deliver set_mem set_done set_queue w_done rcv_req msg_bytes].
    rewrite lookup_insert_eq, Hn. reflexivity. }
  exists (completed (settle w2) (w_next w1)). eexists.
  split; [|split].
  - unfold sized_receive. unfold bind at 1.
    rewrite Write_enqueues by lia. fold rs rr w1.
    unfold bind at 1. unfold ReceiveBufferAsync.
    rewrite to_int_small by (unfold INT_MIN, INT_MAX in *; lia).
    rewrite ReadAsync4_posted by lia. fold rr rs w2.
    unfold bind at 1.
    rewrite WaitComplete_aligned by (rewrite ?Hd; eauto).
    unfold bind at 1. unfold ReceivedBytes, bind, lift, CB_ENSURE, check, defined.
    unfold completed at 1 2. cbn [Flag Status Z.eqb negb].
    unfold MPI_SAFE_CALL, MPI_Get_count. cbn [negb Z.eqb MPI_SUCCESS st_count].
    rewrite Hd. cbn [default from_option]. unfold id, ret.
    rewrite to_ui64_small; [reflexivity|].
    unfold INT_MAX in *. split; [lia|].
    apply Z.le_lt_trans with 2147483647; [lia|reflexivity].
  - reflexivity.
  - cbn [trace w_mem]. rewrite Hs.
    cbn [set_posted deliver set_mem set_done set_queue w_mem rcv_rank rcv_buf msg_bytes].
    apply load_store_at.
Qed.

Lemma ReceivedBytes_is_message_size_witness :
  exists r w',
    sized_receive (mkManager 2 0 0 false) (mkManager 2 1 0 false)
      [Byte.x61; Byte.x62] 2 7 100 16 (World0 zero_memory) = Returns ((2, r), w') /\
    state_of r = Complete.
Proof.
  assert (Hi : idle (World0 zero_memory)) by (split; reflexivity).
  assert (Hn : 2 = Z.of_nat (length [Byte.x61; Byte.x62])) by reflexivity.
  assert (Hs : 2 <= 16 <= INT_MAX) by (unfold INT_MAX; lia).
  destruct (ReceivedBytes_is_message_size (mkManager 2 0 0 false) (mkManager 2 1 0 false)
              [Byte.x61; Byte.x62] 2 7 100 16 (World0 zero_memory) Hi Hn Hs)
    as (r & w' & Hret & Hc & _).
  exists r, w'. split; [exact Hret|exact Hc].
Defined.



(** X8: values that are not fixed-layout.  When [Load] undoes [Save] on the
    value and the serialized form has at most [INT_MAX] bytes, the typed
    receive returns the value that the typed send was given. *)
Theorem serialized_round_trip {T : Type} `{Wire T} sender receiver (value : T)
    tag result buffer w :
  idle w ->
  is_pod T = false ->
  Load (Save value) = value ->
  Z.of_nat (length (Save value)) <= INT_MAX ->
  exists w',
    typed_transfer sender receiver value tag result buffer w = Returns (value, w') /\
    load_bytes (w_mem w' (HostId receiver)) buffer (length (Save value)) = Save value /\
    idle w'.
Proof.
  intros Hi Hpod Hload Hmax.
  destruct (after_Write_from_idle sender (Save value) (Z.of_nat (length (Save value)))
              (HostId receiver) tag w Hi eq_refl) as (Hp1 & Hq1 & Hm1 & _).
  unfold typed_transfer, Send, Receive. rewrite Hpod. unfold bind at 1.
  rewrite to_int_small by (unfold INT_MIN, INT_MAX in *; lia).
  rewrite Write_enqueues by lia. unfold bind.
  rewrite (DynamicReceive_one _ _ _ _ (Save value)) by assumption.
  unfold ret. rewrite Hload.
  eexists. split; [reflexivity|]. cbn [w_mem].
  split; [apply load_store_at|split; reflexivity].
Qed.

Lemma serialized_round_trip_witness :
  exists w',
    @typed_transfer (list byte) string_wire (mkManager 2 0 0 false)
      (mkManager 2 1 0 false) [Byte.x68; Byte.x69] 7 64 128 (World0 zero_memory)
    = Returns ([Byte.x68; Byte.x69], w').
Proof.
  assert (Hi : idle (World0 zero_memory)) by (split; reflexivity).
  assert (Hpod : @is_pod (list byte) string_wire = false) by reflexivity.
  assert (Hload : @Load _ string_wire (@Save _ string_wire [Byte.x68; Byte.x69])
                  = [Byte.x68; Byte.x69]) by reflexivity.
  assert (Hmax : Z.of_nat (length (@Save _ string_wire [Byte.x68; Byte.x69])) <= INT_MAX)
    by (change (2 <= 2147483647); lia).
  destruct (@serialized_round_trip (list byte) string_wire (mkManager 2 0 0 false)
              (mkManager 2 1 0 false) [Byte.x68; Byte.x69] 7 64 128 (World0 zero_memory)
              Hi Hpod Hload Hmax) as (w' & Hret & _).
  exists w'. exact Hret.
Defined.

End SizesAndPolls.
(** ** Vectors of requests *)

Section RequestVectors.

Lemma IsComplete_answer r w b r' w' :
  IsComplete r w = Returns ((b, r'), w') ->
  (b = true /\ state_of r' = Complete) \/ (b = false /\ state_of r' = Pending).
Proof.
  unfold IsComplete, bind, lift, Y_ASSERT, CB_ENSURE, check, ret, defined.
  destruct (Flag r =? -1) eqn:H1; cbn [negb]; [discriminate|].
  destruct (Flag r =? 0) eqn:H0.
  - destruct (Request r); [|discriminate].
    destruct (MPI_SAFE_CALL _ _) as [[[flag status] w1]|] eqn:Ht; [|discriminate].
    apply MPI_Test_safe in Ht as [[-> _]|[-> _]]; cbn; intros [= <- <- <-].
    + left. split; reflexivity.
    + right. split; reflexivity.
  - cbn. intros [= <- <- <-]. left. split; [reflexivity|].
    unfold state_of. rewrite H1, H0. reflexivity.
Qed.

(** X13: the answer of [AreRequestsComplete].  Whenever the call returns, it
    returns as many requests as it was given, it answers true exactly when
    all of them are complete, and on the answer false one request is
    pending, those before it are complete and those after it are as they
    were: the loop stops at the first request that is not complete. *)
Theorem AreRequestsComplete_answer requests w b requests' w' :
  AreRequestsComplete requests w = Returns ((b, requests'), w') ->
  length requests' = length requests /\
  (b = true <-> Forall (fun r => state_of r = Complete) requests') /\
  (b = false ->
   exists (i : nat) r,
     requests' !! i = Some r /\ state_of r = Pending /\
     Forall (fun r => state_of r = Complete) (take i requests') /\
     drop (S i) requests' = drop (S i) requests).
Proof.
  revert w b requests' w'.
  induction requests as [|r requests IH]; intros w b requests' w'.
  - cbn. intros [= <- <- <-]. split; [reflexivity|]. split.
    + split; [constructor|reflexivity].
    + discriminate.
  - cbn [AreRequestsComplete]. unfold bind at 1.
    destruct (IsComplete r w) as [[[c r1] w1]|] eqn:Hpoll; [|discriminate].
    apply IsComplete_answer in Hpoll as [[-> Hc]|[-> Hp]]; cbn [negb].
    + unfold bind.
      destruct (AreRequestsComplete requests w1) as [[[b2 rest] w2]|] eqn:Hrest;
        [|discriminate].
      intros [= <- <- <-].
      destruct (IH _ _ _ _ Hrest) as (Hlen & Hall & Hstop).
      split; [cbn; congruence|]. split.
      * rewrite Forall_cons. tauto.
      * intros Hb. destruct (Hstop Hb) as (i & r2 & Hi & Hr2 & Hbefore & Hafter).
        exists (S i), r2. repeat split; try assumption.
        cbn [take]. constructor; assumption.
    + intros [= <- <- <-]. split; [reflexivity|]. split.
      * split; [discriminate|]. intros Hall. inversion Hall as [|? ? Hr1 _]; subst.
        rewrite Hp in Hr1. discriminate.
      * intros _. exists 0%nat, r1. repeat split; [assumption|constructor].
Qed.

Lemma AreRequestsComplete_answer_witness :
  let requests := [mkRequest 1 (Some 0) None; TMpiRequest_of 1; TMpiRequest_of 2] in
  exists requests' w',
    AreRequestsComplete requests
      (set_posted [mkPosted 1 1 0 7 100 4; mkPosted 2 1 0 7 104 4] (World0 zero_memory))
    = Returns ((false, requests'), w') /\
    length requests' = length requests.
Proof.
  intros requests. eexists _, _.
  match goal with
  | |- ?A /\ _ => assert (Hrun : A) by (vm_compute; reflexivity)
  end.
  split; [exact Hrun|].
  exact (proj1 (AreRequestsComplete_answer _ _ _ _ _ Hrun)).
Defined.

(** *** The requests of a chunked send *)

Lemma WriteAsync4_request this data dataSize destRank tag w r w' :
  WriteAsync4 this data dataSize destRank tag w = Returns (r, w') ->
  exists request, r = TMpiRequest_of request.
Proof.
  unfold WriteAsync4, bind, MPI_SAFE_CALL, ret.
  destruct (MPI_Isend _ _ _ _ _ w) as [[[e request] w1]|]; [|discriminate].
  destruct (negb (MPI_SUCCESS =? e)); [discriminate|].
  intros [= <- <-]. exists request. reflexivity.
Qed.

Lemma WriteAsync_loop_appends this data dataSize blockSize destRank tag :
  forall fuel offset requests w issued w',
    WriteAsync_loop fuel this data dataSize blockSize destRank tag offset requests w
      = Returns (issued, w') ->
    exists handles, issued = requests ++ map TMpiRequest_of handles.
Proof.
  induction fuel as [|fuel IH]; intros offset requests w issued w';
    cbn [WriteAsync_loop]; destruct (offset <? dataSize).
  - discriminate.
  - intros [= <- <-]. exists []. cbn. rewrite app_nil_r. reflexivity.
  - unfold bind at 1.
    destruct (WriteAsync4 _ _ _ _ _ w) as [[r w1]|] eqn:Hr; [|discriminate].
    apply WriteAsync4_request in Hr as [request ->].
    intros Hloop. apply IH in Hloop as [hs ->].
    exists (request :: hs). rewrite <- app_assoc. reflexivity.
  - intros [= <- <-]. exists []. cbn. rewrite app_nil_r. reflexivity.
Qed.

Lemma destroy_complete r : state_of r = Complete -> destroy r = Returns tt.
Proof.
  intros Hs. apply state_Complete_flags in Hs as [H1 H0].
  unfold destroy, Y_VERIFY, check. rewrite H1, H0. reflexivity.
Qed.

Lemma WaitAll_reaches_complete requests : forall w waited w',
  WaitAll requests w = Returns (waited, w') ->
  length waited = length requests /\
  Forall (fun r => state_of r = Complete /\ destroy r = Returns tt) waited.
Proof.
  induction requests as [|r requests IH]; intros w waited w'; cbn [WaitAll].
  - intros [= <- <-]. split; [reflexivity|constructor].
  - unfold bind at 1.
    destruct (WaitComplete r w) as [[r1 w1]|] eqn:Hr; [|discriminate].
    unfold bind at 1.
    destruct (WaitAll requests w1) as [[rest w2]|] eqn:Hrest; [|discriminate].
    intros [= <- <-]. apply IH in Hrest as [Hlen Hall].
    apply WaitComplete_reaches_complete in Hr.
    split; [cbn [length]; congruence|].
    constructor; [|exact Hall]. split; [exact Hr|apply destroy_complete, Hr].
Qed.

(** X5: the requests of a chunked send must be waited for.  Whenever the
    six-argument [WriteAsync] returns, what it appended to the vector are
    requests that are all pending, whatever the transport has done with the
    bytes: the destructor of each stops with the "unfinished request"
    check.  Whenever a later [WaitComplete] on each of them returns, in
    whatever world the waits happen, each is complete and its destructor
    returns. *)
Theorem sends_are_pending_until_waited fuel this (data : list byte)
    dataSize blockSize destRank tag requests w issued w' :
  WriteAsync6 fuel this data dataSize blockSize destRank tag requests w
    = Returns (issued, w') ->
  exists appended,
    issued = requests ++ appended /\
    Forall (fun r => state_of r = Pending /\ destroy r = Stops VerifyFailed) appended /\
    forall w1 waited w2,
      WaitAll appended w1 = Returns (waited, w2) ->
      length waited = length appended /\
      Forall (fun r => state_of r = Complete /\ destroy r = Returns tt) waited.
Proof.
  unfold WriteAsync6. intros Hrun.
  apply WriteAsync_loop_appends in Hrun as [hs ->].
  exists (map TMpiRequest_of hs). split; [reflexivity|]. split.
  - apply Forall_fmap, Forall_true. intros h. split; reflexivity.
  - intros w1 waited w2. apply WaitAll_reaches_complete.
Qed.

Lemma sends_are_pending_until_waited_witness :
  let sender := mkManager 2 0 0 false in
  let receiver := mkManager 2 1 0 false in
  let data := [Byte.x01; Byte.x02; Byte.x03] in
  exists w' recvs w1 waited w2,
    WriteAsync6 2 sender data 3 2 1 7 [] (World0 zero_memory)
      = Returns ([TMpiRequest_of 0; TMpiRequest_of 1], w') /\
    Forall (fun r => state_of r = Pending /\ destroy r = Stops VerifyFailed)
      [TMpiRequest_of 0; TMpiRequest_of 1] /\
    ReadAsync6 2 receiver 100 3 2 0 7 [] w' = Returns (recvs, w1) /\
    WaitAll [TMpiRequest_of 0; TMpiRequest_of 1] w1 = Returns (waited, w2) /\
    length waited = 2%nat /\
    Forall (fun r => state_of r = Complete /\ destroy r = Returns tt) waited.
Proof.
  intros sender receiver data.
  destruct (WriteAsync6 2 sender data 3 2 1 7 [] (World0 zero_memory))
    as [[issued w']|f] eqn:Hsend; [|vm_compute in Hsend; discriminate].
  assert (Hissued : issued = [TMpiRequest_of 0; TMpiRequest_of 1]).
  { vm_compute in Hsend. injection Hsend as <- _. reflexivity. }
  subst issued.
  destruct (sends_are_pending_until_waited 2 sender data 3 2 1 7 []
              (World0 zero_memory) _ w' Hsend) as (appended & Heq & Hpending & Hwaited).
  cbn [app] in Heq. subst appended.
  destruct (ReadAsync6 2 receiver 100 3 2 0 7 [] w') as [[recvs w1]|f] eqn:Hrecv.
  2: { exfalso. revert Hrecv. injection Hsend as <-. vm_compute. discriminate. }
  destruct (WaitAll [TMpiRequest_of 0; TMpiRequest_of 1] w1) as [[waited w2]|f] eqn:Hwait.
  2: { exfalso. revert Hwait. revert Hrecv. injection Hsend as <-.
       vm_compute. intros [= <- <-]. vm_compute. discriminate. }
  destruct (Hwaited w1 waited w2 Hwait) as [Hlen Hall].
  exists w', recvs, w1, waited, w2.
  split; [reflexivity|]. split; [exact Hpending|]. split; [exact Hrecv|].
  split; [exact Hwait|]. split; [exact Hlen|exact Hall].
Defined.

End RequestVectors.
(** ** More on the chunked transport *)

Section ChunkedOrders.



(** X2: the round trip at any block size.  For a block size between 1 and
    [INT_MAX], chosen by the caller and the same on both sides, the payload
    arrives byte for byte, in [ceil (s / block_size)] messages, whether the
    block size divides the payload size or not. *)
Theorem chunked_round_trip_at_block_size fuel sender receiver (data : list byte)
    dataSize blockSize tag dst w :
  idle w ->
  block_bounds data dataSize blockSize ->
  0 < dataSize ->
  (Z.to_nat (ceil_div dataSize blockSize) <= fuel)%nat ->
  exists sends recvs w',
    chunked_transfer6 fuel sender receiver data dataSize blockSize tag dst w
      = Returns ((sends, recvs), w') /\
    load_bytes (w_mem w' (HostId receiver)) dst (length data) = data /\
    Forall (fun r => state_of r = Complete) (sends ++ recvs) /\
    Z.of_nat (length sends) = ceil_div dataSize blockSize /\
    length recvs = length sends /\
    idle w'.
Proof.
  intros Hi Hb Hpos Hfuel.
  pose proof (blocks_count data dataSize blockSize Hb) as Hcount.
  destruct (chunked_transfer6_round_trip fuel sender receiver data dataSize blockSize
              tag dst w Hi Hb Hpos)
    as (sends & recvs & w' & Hret & Hload & Hc1 & Hc2 & Hl1 & Hl2 & Hi'); [lia|].
  exists sends, recvs, w'. repeat split; try assumption.
  - apply Forall_app. split; assumption.
  - rewrite Hl1. exact Hcount.
  - congruence.
  - apply Hi'.
  - apply Hi'.
Qed.

Lemma chunked_round_trip_at_block_size_witness :
  let data := [Byte.x61; Byte.x62; Byte.x63; Byte.x64; Byte.x65] in
  exists sends recvs w',
    chunked_transfer6 3 (mkManager 2 0 0 false) (mkManager 2 1 0 false) data 5 2 7 100
      (World0 zero_memory) = Returns ((sends, recvs), w') /\
    load_bytes (w_mem w' 1) 100 5 = data.
Proof.
  intros data.
  assert (Hi : idle (World0 zero_memory)) by (split; reflexivity).
  assert (Hb : block_bounds data 5 2).
  { unfold block_bounds, INT_MAX. repeat split; try reflexivity; lia. }
  assert (Hpos : 0 < 5) by lia.
  assert (Hfuel : (Z.to_nat (ceil_div 5 2) <= 3)%nat) by (vm_compute; lia).
  destruct (chunked_round_trip_at_block_size 3 (mkManager 2 0 0 false)
              (mkManager 2 1 0 false) data 5 2 7 100 (World0 zero_memory)
              Hi Hb Hpos Hfuel) as (sends & recvs & w' & Hret & Hload & _).
  exists sends, recvs, w'. split; [exact Hret|exact Hload].
Defined.

(** X3: the order of issue does not matter.  With the receives posted
    before the sends are issued, the payload arrives as well. *)
Theorem chunked_round_trip_receiver_first fuel sender receiver (data : list byte)
    dataSize blockSize tag dst w :
  idle w ->
  block_bounds data dataSize blockSize ->
  0 < dataSize ->
  (Z.to_nat (ceil_div dataSize blockSize) <= fuel)%nat ->
  exists sends recvs w',
    chunked_transfer6_receiver_first fuel sender receiver data dataSize blockSize tag dst w
      = Returns ((sends, recvs), w') /\
    load_bytes (w_mem w' (HostId receiver)) dst (length data) = data /\
    Forall (fun r => state_of r = Complete) (sends ++ recvs) /\
    idle w'.
Proof.
  intros [Hq0 Hp0] Hb Hpos Hfuel.
  pose proof (blocks_count data dataSize blockSize Hb) as Hcount.
  pose proof Hb as (Hlen & Hbs & Hmax).
  set (B := blocks (Z.to_nat blockSize) data) in *.
  assert (HB : (length B <= fuel)%nat) by lia.
  set (rs := HostId sender). set (rr := HostId receiver).
  set (w1 := after_recvs rr rs tag blockSize dst B w).
  set (w2 := after_sends rs rr tag B w1).
  destruct (after_recvs_fixed rr rs tag blockSize B dst w) as (Hq1 & Hp1 & Hm1 & Hn1).
  destruct (after_sends_fixed rs rr tag B w1) as (Hq2 & Hp2 & Hm2 & Hn2 & _).
  fold w1 in Hq1, Hp1, Hm1, Hn1. fold w2 in Hq2, Hp2, Hm2, Hn2.
  rewrite Hp0 in Hp1. rewrite Hq0 in Hq1. cbn [app] in Hp1.
  rewrite Hq1 in Hq2. rewrite Hp1 in Hp2. cbn [app] in Hq2.
  assert (Ha : aligned w2).
  { unfold aligned. rewrite Hp2, Hq2. apply receives_fit. }
  assert (HBpos : (0 < length B)%nat).
  { subst B. destruct data as [|x data]; [cbn in Hlen; lia|].
    rewrite blocks_cons by (lia || discriminate). cbn. lia. }
  assert (Hdone : w_done (settle w2)
                  = w_done (deliveries (receives rr rs tag blockSize dst (w_next w) B)
                              (map (mkMessage rs rr tag) B) w2)).
  { unfold settle. rewrite Hp2, Hq2. reflexivity. }
  assert (Hrecvs : forall r, r ∈ handles (w_next w) (length B) ->
                             is_Some (w_done (settle w2) !! r)).
  { intros r Hr. rewrite Hdone. apply deliveries_done. exact Hr. }
  assert (Hsends : forall r, r ∈ handles (w_next w1) (length B) ->
                             is_Some (w_done (settle w2) !! r)).
  { intros r Hr. rewrite Hdone. apply deliveries_keeps.
    apply after_sends_done. exact Hr. }
  set (cs1 := map Call_Wait (handles (w_next w) (length B))).
  set (w3 := traces cs1 (settle w2)).
  set (cs2 := map Call_Wait (handles (w_next w1) (length B))).
  destruct (traces_fixed cs1 (settle w2)) as (_ & _ & Hd3 & Hm3 & _). fold w3 in Hd3, Hm3.
  destruct (traces_fixed cs2 w3) as (_ & _ & _ & Hm4 & _).
  assert (Hi3 : idle w3) by (apply idle_traces, settle_idle, Ha).
  exists (map (completed w3) (handles (w_next w1) (length B))),
         (map (completed (settle w2)) (handles (w_next w) (length B))),
         (traces cs2 w3).
  split; [|split; [|split]].
  - unfold chunked_transfer6_receiver_first. unfold bind at 1.
    rewrite (ReadAsync6_blocks fuel receiver data) by assumption.
    unfold bind at 1. fold rs rr B w1.
    rewrite (WriteAsync6_blocks fuel sender data) by assumption.
    fold rs rr B w2. cbn [app]. unfold pending_requests.
    unfold bind at 1.
    rewrite WaitAll_aligned;
      [|exact Ha|apply handles_nonempty; exact HBpos|exact Hrecvs].
    fold cs1 w3. unfold bind at 1.
    rewrite WaitAll_idle; [reflexivity|exact Hi3|].
    intros r Hr. rewrite Hd3. apply Hsends. exact Hr.
  - rewrite Hm4, Hm3. unfold settle. cbn [set_posted w_mem].
    rewrite Hp2, Hq2. fold rr. rewrite deliveries_memory.
    rewrite Hm2, Hm1.
    replace blockSize with (Z.of_nat (Z.to_nat blockSize)) at 1 by lia.
    apply load_store_blocks. lia.
  - apply Forall_app. split; apply Forall_fmap, Forall_true; intros h; reflexivity.
  - apply idle_traces. exact Hi3.
Qed.

Lemma chunked_round_trip_receiver_first_witness :
  let data := [Byte.x61; Byte.x62; Byte.x63; Byte.x64; Byte.x65] in
  exists sends recvs w',
    chunked_transfer6_receiver_first 3 (mkManager 2 0 0 false) (mkManager 2 1 0 false)
      data 5 2 7 100 (World0 zero_memory) = Returns ((sends, recvs), w') /\
    load_bytes (w_mem w' 1) 100 5 = data.
Proof.
  intros data.
  assert (Hi : idle (World0 zero_memory)) by (split; reflexivity).
  assert (Hb : block_bounds data 5 2).
  { unfold block_bounds, INT_MAX. repeat split; try reflexivity; lia. }
  assert (Hpos : 0 < 5) by lia.
  assert (Hfuel : (Z.to_nat (ceil_div 5 2) <= 3)%nat) by (vm_compute; lia).
  destruct (chunked_round_trip_receiver_first 3 (mkManager 2 0 0 false)
              (mkManager 2 1 0 false) data 5 2 7 100 (World0 zero_memory)
              Hi Hb Hpos Hfuel) as (sends & recvs & w' & Hret & Hload & _).
  exists sends, recvs, w'. split; [exact Hret|exact Hload].
Defined.

(** *** A block size of zero *)

Lemma WriteAsync_loop_stuck this (data : list byte) dataSize destRank tag :
  0 < dataSize ->
  forall fuel requests w,
    WriteAsync_loop fuel this data dataSize 0 destRank tag 0 requests w = Stops OutOfFuel.
Proof.
  intros Hpos. induction fuel as [|fuel IH]; intros requests w;
    cbn [WriteAsync_loop]; destruct (Z.ltb_spec 0 dataSize); try lia; [reflexivity|].
  assert (Hsize : to_int (Z.min 0 (to_ui64 (dataSize - 0))) = 0).
  { rewrite Z.min_l; [reflexivity|]. unfold to_ui64. apply Z.mod_pos_bound. lia. }
  rewrite Hsize. change (to_ui64 (0 + 0)) with 0.
  unfold bind at 1.
  rewrite (WriteAsync4_block this (drop (Z.to_nat 0) data) 0 destRank tag w : 
             WriteAsync4 this (drop (Z.to_nat 0) data) 0 destRank tag w = _).
  apply IH.
Qed.

Lemma ReadAsync_loop_stuck this dst dataSize sourceRank tag :
  0 < dataSize ->
  forall fuel requests w,
    ReadAsync_loop fuel this dst dataSize 0 sourceRank tag 0 requests w = Stops OutOfFuel.
Proof.
  intros Hpos. induction fuel as [|fuel IH]; intros requests w;
    cbn [ReadAsync_loop]; destruct (Z.ltb_spec 0 dataSize); try lia; [reflexivity|].
  assert (Hsize : to_int (Z.min 0 (to_ui64 (dataSize - 0))) = 0).
  { rewrite Z.min_l; [reflexivity|]. unfold to_ui64. apply Z.mod_pos_bound. lia. }
  rewrite Hsize. change (to_ui64 (0 + 0)) with 0.
  unfold bind at 1. rewrite ReadAsync4_posted by lia. apply IH.
Qed.

(** X4: a block size of zero.  With an empty payload both chunked calls
    return at once, with no request and no call to the transport; with a
    payload that is not empty neither call ever returns: [offset] stays 0,
    and every iteration issues an empty transfer and appends a request. *)
Theorem zero_block_size fuel this (data : list byte) dataSize dst rank tag requests w :
  0 <= dataSize ->
  (dataSize = 0 ->
   WriteAsync6 fuel this data dataSize 0 rank tag requests w = Returns (requests, w) /\
   ReadAsync6 fuel this dst dataSize 0 rank tag requests w = Returns (requests, w)) /\
  (0 < dataSize ->
   WriteAsync6 fuel this data dataSize 0 rank tag requests w = Stops OutOfFuel /\
   ReadAsync6 fuel this dst dataSize 0 rank tag requests w = Stops OutOfFuel).
Proof.
  intros Hs. split.
  - intros ->. unfold WriteAsync6, ReadAsync6. destruct fuel; split; reflexivity.
  - intros Hpos. unfold WriteAsync6, ReadAsync6. split.
    + apply WriteAsync_loop_stuck. assumption.
    + apply ReadAsync_loop_stuck. assumption.
Qed.

Lemma zero_block_size_witness :
  WriteAsync6 1000 (mkManager 2 0 0 false) [Byte.x01] 1 0 1 7 [] (World0 zero_memory)
    = Stops OutOfFuel.
Proof.
  assert (Hs : 0 <= 1) by lia.
  destruct (zero_block_size 1000 (mkManager 2 0 0 false) [Byte.x01] 1 100 1 7 []
              (World0 zero_memory) Hs) as [_ Hstuck].
  apply Hstuck. lia.
Defined.

End ChunkedOrders.
(** ** Runs of tags, task tags *)

Section TagRuns.

Lemma tag_of_counter_period c :
  0 <= c -> c + 65535 <= INT_MAX ->
  tag_of_counter (c + 65535) = tag_of_counter c.
Proof.
  unfold INT_MAX. intros Hc Hmax.
  rewrite !tag_of_counter_nonneg by (unfold INT_MAX; lia).
  replace (c + 65535) with (c + 1 * 65535) by lia.
  rewrite Z_mod_plus_full. reflexivity.
Qed.

Lemma allocate_tags n : forall m,
  IsMaster m = true -> 0 <= Counter m -> Counter m + Z.of_nat n <= INT_MAX ->
  exists m',
    allocate n m =
      Returns (map (fun i : nat => tag_of_counter (Counter m + 1 + Z.of_nat i)) (seq 0 n),
               m') /\
    Counter m' = Counter m + Z.of_nat n /\ HostId m' = HostId m.
Proof.
  unfold INT_MAX. induction n as [|n IH]; intros m Hm Hc Hmax.
  - exists m. cbn. repeat split. lia.
  - cbn [allocate]. rewrite NextCommunicationTag_master by assumption.
    unfold AtomicIncrement. rewrite to_intptr_small by lia. cbn [obind].
    destruct (IH (with_Counter m (Counter m + 1))) as (m' & Hrun & Hc' & Hh');
      [exact Hm|cbn; lia|cbn [with_Counter Counter]; lia|].
    rewrite Hrun. cbn [obind with_Counter Counter] in *.
    exists m'. split; [|split; [lia|exact Hh']].
    do 2 f_equal. cbn [seq map]. f_equal; [f_equal; lia|].
    rewrite <- seq_shift, map_map. apply map_ext. intros i. f_equal. lia.
Qed.

(** X14: a run of allocations.  On the master, as long as the counter stays
    within [INT_MAX], up to 65535 calls of [NextCommunicationTag] in a row
    all return, advance the counter by one each, and return tags that are
    positive, carry the ten low bits and are pairwise different. *)
Theorem allocated_run_has_no_duplicate n m :
  IsMaster m = true ->
  0 <= Counter m ->
  Z.of_nat n <= 65535 ->
  Counter m + Z.of_nat n <= INT_MAX ->
  exists tags m',
    allocate n m = Returns (tags, m') /\
    length tags = n /\
    NoDup tags /\
    Forall (fun tag => 0 < tag /\ Z.land tag 1023 = 1023) tags /\
    Counter m' = Counter m + Z.of_nat n.
Proof.
  intros Hm Hc Hn Hmax.
  destruct (allocate_tags n m Hm Hc Hmax) as (m' & Hrun & Hc' & _).
  eexists _, m'. split; [exact Hrun|].
  unfold INT_MAX in *. split; [|split; [|split]].
  - rewrite length_map, length_seq. reflexivity.
  - apply NoDup_fmap_2_strong; [|apply NoDup_seq].
    intros i j Hi Hj Heq. apply elem_of_seq in Hi, Hj.
    destruct (Nat.eq_dec i j) as [|Hne]; [assumption|]. exfalso.
    revert Heq. apply tag_of_counter_distinct; unfold INT_MAX; lia.
  - apply Forall_fmap, Forall_forall. intros i Hi. apply elem_of_seq in Hi.
    cbn beta. split.
    + apply tag_of_counter_positive. unfold INT_MAX. lia.
    + apply tag_of_counter_low_bits.
  - exact Hc'.
Qed.

Lemma allocated_run_has_no_duplicate_witness :
  exists tags m',
    allocate 3 (mkManager 2 0 0 false) = Returns (tags, m') /\
    length tags = 3%nat /\ NoDup tags.
Proof.
  assert (Hm : IsMaster (mkManager 2 0 0 false) = true) by reflexivity.
  assert (Hc : 0 <= Counter (mkManager 2 0 0 false)) by (change (0 <= 0); lia).
  assert (Hn : Z.of_nat 3 <= 65535) by (change (3 <= 65535); lia).
  assert (Hmax : Counter (mkManager 2 0 0 false) + Z.of_nat 3 <= INT_MAX)
    by (change (0 + 3 <= 2147483647); lia).
  destruct (allocated_run_has_no_duplicate 3 (mkManager 2 0 0 false) Hm Hc Hn Hmax)
    as (tags & m' & Hrun & Hlen & Hnd & _).
  exists tags, m'. repeat split; assumption.
Defined.

(** X15: the tags come round.  Two calls whose counters are exactly 65535
    apart return the same tag: an exchange that is still in flight when
    65535 further tags have been allocated shares its tag with the newest
    one. *)
Theorem tags_repeat_after_a_cycle m1 m2 :
  IsMaster m1 = true -> IsMaster m2 = true ->
  0 <= Counter m1 ->
  Counter m2 = Counter m1 + 65535 ->
  Counter m2 < INT_MAX ->
  exists tag m1' m2',
    NextCommunicationTag m1 = Returns (tag, m1') /\
    NextCommunicationTag m2 = Returns (tag, m2').
Proof.
  unfold INT_MAX. intros H1 H2 Hc Heq Hmax.
  rewrite !NextCommunicationTag_master by assumption.
  unfold AtomicIncrement. rewrite !to_intptr_small by lia.
  eexists _, _, _. split; [reflexivity|].
  rewrite Heq. replace (Counter m1 + 65535 + 1) with (Counter m1 + 1 + 65535) by lia.
  rewrite tag_of_counter_period by (unfold INT_MAX; lia). reflexivity.
Qed.

Lemma tags_repeat_after_a_cycle_witness :
  exists tag m1' m2',
    NextCommunicationTag (mkManager 2 0 0 false) = Returns (tag, m1') /\
    NextCommunicationTag (mkManager 2 0 65535 false) = Returns (tag, m2').
Proof.
  apply (tags_repeat_after_a_cycle (mkManager 2 0 0 false) (mkManager 2 0 65535 false)).
  - reflexivity.
  - reflexivity.
  - change (0 <= 0). lia.
  - reflexivity.
  - change (65535 < 2147483647). lia.
Defined.

(** X16: task tags by local id.  For local ids from 0 up to [INT_MAX] - 1 the
    task tag is positive, and two devices have the same task tag exactly
    when their local ids are equal, whatever their hosts. *)
Theorem task_tags_by_local_id d1 d2 :
  0 <= DeviceId d1 < INT_MAX ->
  0 <= DeviceId d2 < INT_MAX ->
  exists t1 t2,
    GetTaskTag d1 = Returns t1 /\ GetTaskTag d2 = Returns t2 /\
    0 < t1 /\ 0 < t2 /\
    (t1 = t2 <-> DeviceId d1 = DeviceId d2).
Proof.
  intros H1 H2. rewrite !GetTaskTag_small by assumption.
  eexists _, _. split; [reflexivity|]. split; [reflexivity|].
  repeat split; lia.
Qed.

Lemma task_tags_by_local_id_witness :
  exists t1 t2,
    GetTaskTag (mkDeviceId 0 2) = Returns t1 /\ GetTaskTag (mkDeviceId 1 2) = Returns t2 /\
    0 < t1 /\ 0 < t2 /\ (t1 = t2 <-> 2 = 2).
Proof.
  apply (task_tags_by_local_id (mkDeviceId 0 2) (mkDeviceId 1 2));
    change (0 <= 2 < 2147483647); lia.
Defined.

End TagRuns.

(** ** A move over a pending request *)

Section MoveOverPending.

(** X17: the move assignment does not look at what it overwrites.  When the
    destination holds a pending request and the source does not, the
    assignment returns, and afterwards both objects are destroyed without
    the "unfinished request" check firing, although the destructor would
    have stopped on the destination before the assignment. *)
Theorem move_assign_over_pending (s : gmap Z TMpiRequest) this other o t :
  this <> other ->
  s !! this = Some t -> s !! other = Some o ->
  state_of t = Pending -> state_of o <> Pending ->
  destroy_at this s = Stops VerifyFailed /\
  exists s',
    move_assign this other s = Returns s' /\
    destroy_at this s' = Returns (delete this s') /\
    destroy_at other s' = Returns (delete other s').
Proof.
  intros Hne Ht Ho Hpend Hnot.
  destruct (state_Pending_flags t Hpend) as [Ht1 Ht0].
  split.
  - unfold destroy_at. rewrite Ht. unfold destroy, Y_VERIFY, check.
    rewrite Ht1, Ht0. reflexivity.
  - eexists. split; [apply move_body_apart; eauto|].
    destruct (moved_store s this other o Hne) as (H1 & H2 & _).
    unfold destroy_at. rewrite H1, H2. split; [|reflexivity].
    assert (Hd : destroy o = Returns tt); [|rewrite Hd; reflexivity].
    pose proof (state_of_flag o) as Hf. unfold destroy, Y_VERIFY, check.
    destruct (state_of o); [| contradiction |].
    + rewrite Hf. reflexivity.
    + destruct Hf as [Hf1 Hf0].
      destruct (Z.eqb_spec (Flag o) (-1)); [contradiction|].
      destruct (Z.eqb_spec (Flag o) 0); [contradiction|]. reflexivity.
Qed.

Lemma move_assign_over_pending_witness :
  let s : gmap Z TMpiRequest := <[10 := TMpiRequest_default]> (<[20 := TMpiRequest_of 7]> ∅) in
  destroy_at 20 s = Stops VerifyFailed /\
  exists s',
    move_assign 20 10 s = Returns s' /\
    destroy_at 20 s' = Returns (delete 20 s') /\
    destroy_at 10 s' = Returns (delete 10 s').
Proof.
  intros s.
  apply (move_assign_over_pending s 20 10 TMpiRequest_default (TMpiRequest_of 7)).
  - lia.
  - reflexivity.
  - reflexivity.
  - reflexivity.
  - discriminate.
Defined.

End MoveOverPending.

(** ** The model on small inputs *)

Section Examples.

Example first_tag :
  NextCommunicationTag (mkManager 2 0 0 false) = Returns (2047, mkManager 2 0 1 false).
Proof. reflexivity. Qed.

Example tag_on_worker :
  NextCommunicationTag (mkManager 2 1 0 false) = Stops AssertFailed.
Proof. reflexivity. Qed.

Example tag_after_one_cycle :
  NextCommunicationTag (mkManager 2 0 65535 false) = Returns (2047, mkManager 2 0 65536 false).
Proof. vm_compute. reflexivity. Qed.

Example blocks_uneven :
  blocks 2 [Byte.x01; Byte.x02; Byte.x03; Byte.x04; Byte.x05]
    = [[Byte.x01; Byte.x02]; [Byte.x03; Byte.x04]; [Byte.x05]].
Proof. reflexivity. Qed.

Example blocks_even :
  blocks 2 [Byte.x01; Byte.x02; Byte.x03; Byte.x04]
    = [[Byte.x01; Byte.x02]; [Byte.x03; Byte.x04]].
Proof. reflexivity. Qed.

(** A block size of zero: the loop never ends. *)
Example WriteAsync6_block_size_zero fuel :
  WriteAsync6 fuel (mkManager 2 0 0 false) [Byte.x01] 1 0 1 1023 [] (World0 zero_memory)
    = Stops OutOfFuel.
Proof.
  unfold WriteAsync6. generalize (@nil TMpiRequest). generalize (World0 zero_memory).
  induction fuel as [|fuel IH]; intros w requests; [reflexivity|].
  cbn [WriteAsync_loop]. change (0 <? 1) with true. cbv iota.
  unfold bind at 1.
  change (to_int (Z.min 0 (to_ui64 (1 - 0)))) with (Z.of_nat (length (take 0 [Byte.x01]))).
  change (drop (Z.to_nat 0) [Byte.x01]) with [Byte.x01].
  rewrite WriteAsync4_block.
  change (to_ui64 (0 + 0)) with 0. apply IH.
Qed.

(** A block size far beyond [INT_MAX] with a payload of three bytes: one
    block, one request, one message. *)
Example block_size_beyond_payload :
  match WriteAsync6 1 (mkManager 2 0 0 false) [Byte.x01; Byte.x02; Byte.x03] 3
          1099511627776 1 1023 [] (World0 zero_memory) with
  | Returns (requests, w') =>
      requests = [TMpiRequest_of 0] /\
      w_queue w' = [mkMessage 0 1 1023 [Byte.x01; Byte.x02; Byte.x03]]
  | Stops _ => False
  end.
Proof. vm_compute. repeat split. Qed.

(** Five bytes in blocks of two, from rank 0 to address 100 of rank 1. *)
Example transfer_in_blocks_of_two :
  match chunked_transfer6 3 (mkManager 2 0 0 false) (mkManager 2 1 0 false)
          [Byte.x61; Byte.x62; Byte.x63; Byte.x64; Byte.x65] 5 2 1023 100
          (World0 zero_memory) with
  | Returns ((sends, recvs), w') =>
      load_bytes (w_mem w' 1) 100 5 = [Byte.x61; Byte.x62; Byte.x63; Byte.x64; Byte.x65] /\
      load_bytes (w_mem w' 1) 98 2 = [Byte.x00; Byte.x00] /\
      map Flag sends = [1; 1; 1] /\ map Flag recvs = [1; 1; 1] /\
      w_queue w' = [] /\ w_posted w' = []
  | Stops _ => False
  end.
Proof. vm_compute. repeat split. Qed.

(** The receives posted first, the sends after them: the same result. *)
Example transfer_receives_first :
  let sender := mkManager 2 0 0 false in
  let receiver := mkManager 2 1 0 false in
  let data := [Byte.x61; Byte.x62; Byte.x63; Byte.x64; Byte.x65] in
  match (let* recvs := ReadAsync6 3 receiver 100 5 2 0 1023 [] in
         let* sends := WriteAsync6 3 sender data 5 2 1 1023 [] in
         let* recvs := WaitAll recvs in
         let* sends := WaitAll sends in
         ret (sends, recvs)) (World0 zero_memory) with
  | Returns (_, w') => load_bytes (w_mem w' 1) 100 5 = data
  | Stops _ => False
  end.
Proof. vm_compute. reflexivity. Qed.

(** A wait for a receive that no send answers cannot return. *)
Example wait_without_send :
  (let* r := ReadAsync4 (mkManager 2 1 0 false) 100 4 0 1023 in WaitComplete r)
    (World0 zero_memory) = Stops Blocked.
Proof. vm_compute. reflexivity. Qed.

(** A pending request that goes out of scope. *)
Example destroy_pending : destroy (TMpiRequest_of 0) = Stops VerifyFailed.
Proof. reflexivity. Qed.

Example wait_on_default : 
  WaitComplete TMpiRequest_default (World0 zero_memory) = Stops EnsureFailed.
Proof. reflexivity. Qed.

End Examples.
